(** * Rating aggregation of the book catalogue service

    A shallow embedding of the rating subsystem of the catalogue back end:

    - [src/unnamed/part_008]           the [Rating] schema and its unique index
    - [src/model/book.model.js]        the [Book] schema
    - [src/unnamed/part_005]           the rating repository
    - [src/repositories/book.repository.js]  [findBookById], [updateBookRatingMetrics]
    - [src/services/rating.service.js] [handleBookRating]
    - [src/unnamed/part_002]           the controller [rateBook]

    Modelling decisions, stated once:

    - A JavaScript [Number] is an exact rational ([Qc], with Leibniz equality).
      The division of [Qc] is total ([x / 0 = 0]), so statements that divide
      say when the divisor is not zero.  The rounding of IEEE doubles is not
      part of this model; [rate_binary64] evaluates the arithmetic of the
      update in binary64 to show where the two part.
    - The two MongoDB collections are a list of rating documents (insertion
      order) and a finite map from [_id] to book documents.  Every repository
      call is one atomic round trip to the store and is assumed to reach it
      (no transient I/O failure); identifiers are well-formed ObjectIds.
    - The clock is an explicit argument: the time at which a document is
      stamped by the [timestamps] option of its schema. *)

From Stdlib Require Import ZArith QArith Qcanon Lia String Ascii Field.
From Stdlib Require Import Floats.SpecFloat.
From stdpp Require Import base option list gmap sorting.

Local Open Scope Z_scope.
Local Open Scope Qc_scope.

(** ** Data model *)

Definition ObjectId := N.
Definition Time := Z.

(** [ratingSchema] (part_008): [rating], [book], [user], and the two stamps
    added by [timestamps: true]. *)
Record Rating := mkRating {
  rating : Qc;
  book : ObjectId;
  user : ObjectId;
  rating_createdAt : Time;
  rating_updatedAt : Time
}.

(** [bookSchema] (model/book.model.js).  Paths that are not [required] are
    optional; [averageRating] and [totalRatingsCount] default to 0. *)
Record Book := mkBook {
  titulo : string;
  portada : option string;
  sinopsis : option string;
  autor : option string;
  categorias : list string;
  link : string;
  fileType : option string;
  creator : option ObjectId;
  averageRating : Qc;
  totalRatingsCount : Qc;
  createdAt : Time;
  updatedAt : Time
}.

(** The body of a create request: what [ratingData] holds in
    [handleBookRating]. *)
Record RatingData := mkRatingData {
  data_rating : Qc;
  data_book : ObjectId;
  data_user : ObjectId
}.

(** The database: the [ratings] collection and the [books] collection. *)
Record Db := mkDb {
  ratings : list Rating;
  books : gmap ObjectId Book
}.

(** A hydrated Mongoose document of a book, as [Book.findById] returns it:
    the values read from the store and the current in-memory values.  The
    difference of the two is the set of modified paths that [save] writes. *)
Record BookDocument := mkDoc {
  doc_id : ObjectId;
  doc_loaded : Book;
  doc_fields : Book
}.

(** Errors that reach the controller's [catch]. *)
Inductive Error :=
| AlreadyRated        (* new Error('Ya has calificado este libro.') *)
| BookNotFound        (* new Error('Libro no encontrado.') *)
| DuplicateKey        (* E11000, raised by the unique index {book, user} *)
| ValidationError     (* the schema's min/max validators on [rating] *)
| DocumentNotFound.   (* [save] of a document that is no longer stored *)

(** [error.message].  Of the two store errors only the fact that their text
    is neither of the two service messages is used. *)
Definition message (e : Error) : string :=
  match e with
  | AlreadyRated => "Ya has calificado este libro."
  | BookNotFound => "Libro no encontrado."
  | DuplicateKey => "E11000 duplicate key error collection: ratings index: book_1_user_1"
  | ValidationError => "Rating validation failed: rating"
  | DocumentNotFound => "No document found for query"
  end.

(** ** The store monad: state that survives a thrown error *)

Definition M (A : Type) : Type := Db → Db * (Error + A).

Definition ret {A} (a : A) : M A := λ db, (db, inr a).
Definition throw {A} (e : Error) : M A := λ db, (db, inl e).
Definition bind {A B} (m : M A) (k : A → M B) : M B :=
  λ db, match m db with
        | (db', inl e) => (db', inl e)
        | (db', inr a) => k a db'
        end.

Notation "'await' x <- m ; k" := (bind m (λ x, k))
  (at level 10, x name, m at level 100, k at level 200).

(** ** Repositories *)

Definition same_pair (bookId userId : ObjectId) (r : Rating) : bool :=
  bool_decide (book r = bookId) && bool_decide (user r = userId).

(** [Rating.findOne({ book: bookId, user: userId })] *)
Definition findByBookAndUser (bookId userId : ObjectId) : M (option Rating) :=
  λ db, (db, inr (List.find (same_pair bookId userId) (ratings db))).

(** The validators of [ratingSchema.rating]: [min: 1], [max: 5]. *)
Definition valid_rating (x : Qc) : bool :=
  bool_decide (Qc_of_Z 1 ≤ x) && bool_decide (x ≤ Qc_of_Z 5).

(** [Rating.create(ratingData)]: validate against the schema, then insert;
    the unique index on [{book, user}] refuses a second document of a pair. *)
Definition createRating (now : Time) (d : RatingData) : M Rating :=
  λ db,
    if negb (valid_rating (data_rating d)) then (db, inl ValidationError)
    else if existsb (same_pair (data_book d) (data_user d)) (ratings db)
    then (db, inl DuplicateKey)
    else
      let r := mkRating (data_rating d) (data_book d) (data_user d) now now in
      (mkDb (ratings db ++ [r]) (books db), inr r).

(** [Book.findById(bookId)] *)
Definition findBookById (bookId : ObjectId) : M (option BookDocument) :=
  λ db, (db, inr ((λ b, mkDoc bookId b b) <$> books db !! bookId)).

Definition set_averageRating (x : Qc) (b : Book) : Book :=
  mkBook (titulo b) (portada b) (sinopsis b) (autor b) (categorias b) (link b)
         (fileType b) (creator b) x (totalRatingsCount b)
         (createdAt b) (updatedAt b).

Definition set_totalRatingsCount (x : Qc) (b : Book) : Book :=
  mkBook (titulo b) (portada b) (sinopsis b) (autor b) (categorias b) (link b)
         (fileType b) (creator b) (averageRating b) x
         (createdAt b) (updatedAt b).

Definition set_updatedAt (t : Time) (b : Book) : Book :=
  mkBook (titulo b) (portada b) (sinopsis b) (autor b) (categorias b) (link b)
         (fileType b) (creator b) (averageRating b) (totalRatingsCount b)
         (createdAt b) t.

(** [book.averageRating = x] and [book.totalRatingsCount = x] on a document *)
Definition assign_averageRating (x : Qc) (d : BookDocument) : BookDocument :=
  mkDoc (doc_id d) (doc_loaded d) (set_averageRating x (doc_fields d)).

Definition assign_totalRatingsCount (x : Qc) (d : BookDocument) : BookDocument :=
  mkDoc (doc_id d) (doc_loaded d) (set_totalRatingsCount x (doc_fields d)).

(** The update that [save] sends: [$set] of each rating path whose value
    differs from the loaded one, and of [updatedAt]. *)
Definition apply_modified (now : Time) (d : BookDocument) (stored : Book) : Book :=
  let b1 := if decide (averageRating (doc_fields d) = averageRating (doc_loaded d))
            then stored
            else set_averageRating (averageRating (doc_fields d)) stored in
  let b2 := if decide (totalRatingsCount (doc_fields d) = totalRatingsCount (doc_loaded d))
            then b1
            else set_totalRatingsCount (totalRatingsCount (doc_fields d)) b1 in
  set_updatedAt now b2.

Definition is_modified (d : BookDocument) : bool :=
  negb (bool_decide (averageRating (doc_fields d) = averageRating (doc_loaded d))
        && bool_decide (totalRatingsCount (doc_fields d) = totalRatingsCount (doc_loaded d))).

(** [updateBookRatingMetrics(book)]: [await book.save()].  An unmodified
    document is not written; otherwise the stored document of that [_id]
    receives the modified paths.  The document in memory carries the new
    [updatedAt] as well. *)
Definition updateBookRatingMetrics (now : Time) (d : BookDocument) : M BookDocument :=
  λ db,
    if negb (is_modified d) then (db, inr d)
    else match books db !! doc_id d with
         | None => (db, inl DocumentNotFound)
         | Some stored =>
             (mkDb (ratings db) (<[doc_id d := apply_modified now d stored]> (books db)),
              inr (mkDoc (doc_id d) (doc_loaded d) (set_updatedAt now (doc_fields d))))
         end.

(** ** The service *)

(** [handleBookRating(bookId, userId, newRating)].  [tIns] and [tSave] are the
    clock readings when the rating is created and when the book is saved. *)
Definition handleBookRating (tIns tSave : Time)
    (bookId userId : ObjectId) (newRating : Qc) : M BookDocument :=
  await existingRating <- findByBookAndUser bookId userId;
  if existingRating is Some _ then throw AlreadyRated else
  let ratingData := mkRatingData newRating bookId userId in
  await _ <- createRating tIns ratingData;
  await book <- findBookById bookId;
  match book with
  | None => throw BookNotFound
  | Some book =>
      let oldTotal := averageRating (doc_fields book) * totalRatingsCount (doc_fields book) in
      let newTotalCount := totalRatingsCount (doc_fields book) + 1 in
      let newAverage := (oldTotal + newRating) / newTotalCount in
      let book := assign_averageRating newAverage book in
      let book := assign_totalRatingsCount newTotalCount book in
      await book <- updateBookRatingMetrics tSave book;
      ret book
  end.


(** ** The controller *)

(** A JavaScript string: its UTF-16 code units. *)
Definition JsString := list N.

Definition js (s : string) : JsString := N_of_ascii <$> list_ascii_of_string s.

(** WhiteSpace and LineTerminator code units, which [parseInt] skips at the
    start of its input. *)
Definition is_white_space (c : N) : bool :=
  ((9 <=? c) && (c <=? 13) || (c =? 32) || (c =? 160) || (c =? 0x1680)
   || (0x2000 <=? c) && (c <=? 0x200A) || (c =? 0x2028) || (c =? 0x2029)
   || (c =? 0x202F) || (c =? 0x205F) || (c =? 0x3000) || (c =? 0xFEFF))%N.

Fixpoint trim_start (s : JsString) : JsString :=
  match s with
  | c :: s' => if is_white_space c then trim_start s' else s
  | [] => []
  end.

(** The value of a code unit as a digit: 0-9, a-z, A-Z. *)
Definition digit_value (c : N) : option Z :=
  if ((48 <=? c) && (c <=? 57))%N then Some (Z.of_N (c - 48))
  else if ((97 <=? c) && (c <=? 122))%N then Some (Z.of_N (c - 97 + 10))
  else if ((65 <=? c) && (c <=? 90))%N then Some (Z.of_N (c - 65 + 10))
  else None.

(** The longest prefix of digits of radix [R]. *)
Fixpoint radix_digits (R : Z) (s : JsString) : list Z :=
  match s with
  | c :: s' =>
      match digit_value c with
      | Some d => if (d <? R)%Z then d :: radix_digits R s' else []
      | None => []
      end
  | [] => []
  end.

Definition math_int (R : Z) (ds : list Z) : Z :=
  fold_left (λ acc d, R * acc + d)%Z ds 0%Z.

(** [parseInt(string, radix)] for a radix between 2 and 36; [None] is NaN.
    The result is the mathematical integer: the rounding of integers beyond
    2^53 to a double and the sign of zero are not represented (neither moves
    a value across the bounds 1 and 5 that the controller tests). *)
Definition parseInt (s : JsString) (radix : Z) : option Z :=
  if ((radix <? 2) || (36 <? radix))%Z then None else
  let trimmed := trim_start s in
  let '(sign, unsigned) :=
    match trimmed with
    | 45%N :: rest => ((-1)%Z, rest)
    | 43%N :: rest => (1%Z, rest)
    | _ => (1%Z, trimmed)
    end in
  let stripped :=
    if (radix =? 16)%Z then
      match unsigned with
      | 48%N :: 120%N :: rest => rest
      | 48%N :: 88%N :: rest => rest
      | _ => unsigned
      end
    else unsigned in
  match radix_digits radix stripped with
  | [] => None
  | ds => Some (sign * math_int radix ds)%Z
  end.

(** The JSON bodies the controller sends. *)
Inductive Body :=
| JsonMessage (msg : string)
| JsonData (msg : string) (data : ObjectId * Book)
| JsonError (msg : string) (error : string).

Record Response := mkResponse {
  status : Z;
  body : Body
}.

(** The [try] block after the call returned, and the [catch] block. *)
Definition respond (r : Error + BookDocument) : Response :=
  match r with
  | inr updatedBook =>
      mkResponse 200
        (JsonData "Calificación registrada exitosamente."
                  (doc_id updatedBook, doc_fields updatedBook))
  | inl error =>
      if (message error =? "Ya has calificado este libro.")%string
         || (message error =? "Libro no encontrado.")%string
      then mkResponse 409 (JsonMessage (message error))
      else mkResponse 500 (JsonError "Error interno del servidor" (message error))
  end.

Definition invalid_score : Response :=
  mkResponse 400 (JsonMessage "La calificación debe ser un número entre 1 y 5.").

(** [rateBook(req, res)] with [req.params = { bookId, userId, newRating }]. *)
Definition rateBook (tIns tSave : Time) (bookId userId : ObjectId)
    (newRating : JsString) (db : Db) : Db * Response :=
  let rating := parseInt newRating 10 in
  match rating with
  | None => (db, invalid_score)
  | Some rating =>
      if ((rating <? 1) || (rating >? 5))%Z then (db, invalid_score)
      else
        let '(db', r) := handleBookRating tIns tSave bookId userId (Qc_of_Z rating) db in
        (db', respond r)
  end.

(** ** The update in binary64

    Step 4 of [handleBookRating] with the arithmetic of JavaScript: IEEE 754
    binary64, round to nearest even, as [SpecFloat] defines it. *)

Definition binary64_of_Z (z : Z) : spec_float := binary_normalize 53 1024 z 0 false.

Definition rate_binary64 (metrics : spec_float * spec_float) (newRating : spec_float)
  : spec_float * spec_float :=
  let '(averageRating, totalRatingsCount) := metrics in
  let oldTotal := SFmul 53 1024 averageRating totalRatingsCount in
  let newTotalCount := SFadd 53 1024 totalRatingsCount (binary64_of_Z 1) in
  let newAverage := SFdiv 53 1024 (SFadd 53 1024 oldTotal newRating) newTotalCount in
  (newAverage, newTotalCount).

(** The metrics of an unrated book after ratings with the given scores. *)
Definition rate_all_binary64 (scores : list Z) : spec_float * spec_float :=
  fold_left rate_binary64 (binary64_of_Z <$> scores) (binary64_of_Z 0, binary64_of_Z 0).

(** ** Sequences of submissions *)

(** One call of the service with its arguments and clock readings. *)
Record Request := mkRequest {
  req_book : ObjectId;
  req_user : ObjectId;
  req_rating : Qc;
  req_tIns : Time;
  req_tSave : Time
}.

Definition submit (q : Request) : M BookDocument :=
  handleBookRating (req_tIns q) (req_tSave q) (req_book q) (req_user q) (req_rating q).

(** Calls served one after the other; the log pairs each call with its
    result. *)
Fixpoint submit_all (qs : list Request) (db : Db)
  : Db * list (Request * (Error + BookDocument)) :=
  match qs with
  | [] => (db, [])
  | q :: qs' =>
      let '(db1, r) := submit q db in
      let '(db2, log) := submit_all qs' db1 in
      (db2, (q, r) :: log)
  end.

(** ** Concurrent requests

    [handleBookRating] is an [async] function: it runs until its next [await],
    and between two of its store calls any other request may run.  A request
    is therefore a small machine with one transition per store call. *)

Inductive Pc :=
| AtCheck                             (* before [findByBookAndUser] *)
| AtInsert                            (* check passed, before [createRating] *)
| AtLoad                              (* inserted, before [findBookById] *)
| AtSave (book : BookDocument)        (* metrics assigned, before [save] *)
| Returned (r : Error + BookDocument).

Definition step (q : Request) (pc : Pc) (db : Db) : Db * Pc :=
  match pc with
  | AtCheck =>
      match findByBookAndUser (req_book q) (req_user q) db with
      | (db', inl e) => (db', Returned (inl e))
      | (db', inr (Some _)) => (db', Returned (inl AlreadyRated))
      | (db', inr None) => (db', AtInsert)
      end
  | AtInsert =>
      let ratingData := mkRatingData (req_rating q) (req_book q) (req_user q) in
      match createRating (req_tIns q) ratingData db with
      | (db', inl e) => (db', Returned (inl e))
      | (db', inr _) => (db', AtLoad)
      end
  | AtLoad =>
      match findBookById (req_book q) db with
      | (db', inl e) => (db', Returned (inl e))
      | (db', inr None) => (db', Returned (inl BookNotFound))
      | (db', inr (Some book)) =>
          let oldTotal := averageRating (doc_fields book) * totalRatingsCount (doc_fields book) in
          let newTotalCount := totalRatingsCount (doc_fields book) + 1 in
          let newAverage := (oldTotal + req_rating q) / newTotalCount in
          let book := assign_averageRating newAverage book in
          let book := assign_totalRatingsCount newTotalCount book in
          (db', AtSave book)
      end
  | AtSave book =>
      match updateBookRatingMetrics (req_tSave q) book db with
      | (db', inl e) => (db', Returned (inl e))
      | (db', inr book) => (db', Returned (inr book))
      end
  | Returned r => (db, Returned r)
  end.

(** The server: the requests in flight and the shared store. *)
Record System := mkSystem {
  threads : list (Request * Pc);
  store : Db
}.

(** The request at index [i] performs its next store call. *)
Definition sys_step (σ : System) (i : nat) : System :=
  match threads σ !! i with
  | None => σ
  | Some (q, pc) =>
      let '(db', pc') := step q pc (store σ) in
      mkSystem (<[i := (q, pc')]> (threads σ)) db'
  end.

(** A schedule names the request that moves at each instant. *)
Definition exec (sched : list nat) (σ : System) : System :=
  fold_left sys_step sched σ.

Definition start (qs : list Request) (db : Db) : System :=
  mkSystem ((λ q, (q, AtCheck)) <$> qs) db.

(** The result of request [i], once it has returned. *)
Definition result_of (σ : System) (i : nat) : option (Error + BookDocument) :=
  match threads σ !! i with
  | Some (_, Returned r) => Some r
  | _ => None
  end.

(** The response the controller sends for request [i]. *)
Definition response_of (σ : System) (i : nat) : option Response :=
  respond <$> result_of σ i.

(** The number of store calls a request still has to make at most. *)
Definition remaining (pc : Pc) : nat :=
  match pc with
  | AtCheck => 4
  | AtInsert => 3
  | AtLoad => 2
  | AtSave _ => 1
  | Returned _ => 0
  end.

(** ** Vocabulary of the statements *)

(** *** What a call leaves behind *)

(** The rating document that [createRating] inserts. *)
Definition new_rating (t : Time) (bookId userId : ObjectId) (s : Qc) : Rating :=
  mkRating s bookId userId t t.

Definition event_of (q : Request) : Rating :=
  new_rating (req_tIns q) (req_book q) (req_user q) (req_rating q).

(** The book as it is stored after one rating of score [s] was applied at
    time [t]: the value that steps 4 and 5 of [handleBookRating] compute. *)
Definition rated (t : Time) (s : Qc) (b : Book) : Book :=
  set_updatedAt t
    (set_totalRatingsCount (totalRatingsCount b + 1)
       (set_averageRating
          ((averageRating b * totalRatingsCount b + s) / (totalRatingsCount b + 1)) b)).

(** The document a request holds after [findBookById] returned [b] and the
    two metrics were assigned. *)
Definition assigned (q : Request) (b : Book) : BookDocument :=
  assign_totalRatingsCount (totalRatingsCount b + 1)
    (assign_averageRating
       ((averageRating b * totalRatingsCount b + req_rating q) / (totalRatingsCount b + 1))
       (mkDoc (req_book q) b b)).

(** The four ways a call of [handleBookRating] ends, each with the store it
    leaves behind. *)
Inductive Outcome (tIns tSave : Time) (bookId userId : ObjectId) (s : Qc) (db : Db)
  : Db * (Error + BookDocument) → Prop :=
| OutDuplicate r :
    List.find (same_pair bookId userId) (ratings db) = Some r →
    Outcome tIns tSave bookId userId s db (db, inl AlreadyRated)
| OutInvalid :
    List.find (same_pair bookId userId) (ratings db) = None →
    valid_rating s = false →
    Outcome tIns tSave bookId userId s db (db, inl ValidationError)
| OutNoBook :
    List.find (same_pair bookId userId) (ratings db) = None →
    valid_rating s = true →
    books db !! bookId = None →
    Outcome tIns tSave bookId userId s db
      (mkDb (ratings db ++ [new_rating tIns bookId userId s]) (books db),
       inl BookNotFound)
| OutRated b :
    List.find (same_pair bookId userId) (ratings db) = None →
    valid_rating s = true →
    books db !! bookId = Some b →
    Outcome tIns tSave bookId userId s db
      (mkDb (ratings db ++ [new_rating tIns bookId userId s])
            (<[bookId := rated tSave s b]> (books db)),
       inr (mkDoc bookId b (rated tSave s b))).

(** *** The ledger *)

(** The rating documents of one pair. *)
Definition events_of (bookId userId : ObjectId) (l : list Rating) : list Rating :=
  List.filter (same_pair bookId userId) l.

(** At most one rating document per pair. *)
Definition unique_pairs (l : list Rating) : Prop :=
  ∀ bookId userId, (length (events_of bookId userId l) ≤ 1)%nat.


(** *** Accepted scores *)





(** The score the controller forwards to the service, if any. *)
Definition accepted_score (newRating : JsString) : option Z :=
  match parseInt newRating 10 with
  | Some v => if ((v <? 1) || (v >? 5))%Z then None else Some v
  | None => None
  end.

(** *** Documents *)

(** [b'] is [b] except for [averageRating] and [totalRatingsCount]: every
    other path, the time stamps included, has the value it has in [b]. *)
Definition only_metrics_differ (b b' : Book) : Prop :=
  b' = set_totalRatingsCount (totalRatingsCount b') (set_averageRating (averageRating b') b).

(** The paths of [bookSchema] other than the two rating paths. *)
Definition catalogue_fields_equal (b b' : Book) : Prop :=
  titulo b' = titulo b ∧ portada b' = portada b ∧ sinopsis b' = sinopsis b ∧
  autor b' = autor b ∧ categorias b' = categorias b ∧ link b' = link b ∧
  fileType b' = fileType b ∧ creator b' = creator b.

(** *** Requests racing for one pair *)

(** A request of the pair with a score the schema accepts. *)
Definition for_pair (bookId userId : ObjectId) (q : Request) : Prop :=
  req_book q = bookId ∧ req_user q = userId ∧ valid_rating (req_rating q) = true.

(** Where the request that inserted the event can be. *)
Definition winner_pc (q : Request) (pc : Pc) : Prop :=
  pc = AtLoad ∨ (∃ b, pc = AtSave (assigned q b)) ∨ (∃ doc, pc = Returned (inr doc)).

(** Where every other request of the pair can be. *)
Definition loser_pc (pc : Pc) : Prop :=
  pc = AtCheck ∨ pc = AtInsert ∨
  pc = Returned (inl AlreadyRated) ∨ pc = Returned (inl DuplicateKey).

(** The invariant of a race for the pair [(bookId, userId)]: either nobody
    has inserted, or exactly one request, the winner [w], has. *)
Definition race_inv (bookId userId : ObjectId) (σ : System) : Prop :=
  (∀ i q pc, threads σ !! i = Some (q, pc) → for_pair bookId userId q) ∧
  is_Some (books (store σ) !! bookId) ∧
  ((events_of bookId userId (ratings (store σ)) = [] ∧
    ∀ i q pc, threads σ !! i = Some (q, pc) → pc = AtCheck ∨ pc = AtInsert)
   ∨
   (∃ w qw pcw,
      threads σ !! w = Some (qw, pcw) ∧ winner_pc qw pcw ∧
      events_of bookId userId (ratings (store σ)) = [event_of qw] ∧
      ∀ j q pc, j ≠ w → threads σ !! j = Some (q, pc) → loser_pc pc)).

(** *** Two raters of one book *)

Definition inserted (pc : Pc) : bool :=
  match pc with
  | AtCheck | AtInsert => false
  | _ => true
  end.

Definition returned (pc : Pc) : bool :=
  match pc with
  | Returned _ => true
  | _ => false
  end.

Definition new_events (q : Request) (pc : Pc) : list Rating :=
  if inserted pc then [event_of q] else [].

(** What is known of a request at [pc] when the book started with
    [totalRatingsCount = c]: before its insert its pair has no event; at its
    save it holds a count read either before any save or after the save of
    the other request. *)
Definition thread_inv (c : Qc) (q : Request) (pc : Pc) (other_returned : bool)
    (db : Db) : Prop :=
  match pc with
  | AtCheck | AtInsert => events_of (req_book q) (req_user q) (ratings db) = []
  | AtLoad => True
  | AtSave doc =>
      ∃ b, doc = assigned q b ∧
           (totalRatingsCount b = c ∨
            (totalRatingsCount b = c + 1 ∧ other_returned = true))
  | Returned r => ∃ doc, r = inr doc
  end.

(** The stored count, by the number of requests that have saved. *)
Definition count_ok (c : Qc) (r1 r2 : bool) (x : Qc) : Prop :=
  match r1, r2 with
  | false, false => x = c
  | true, true => x = c + 1 ∨ x = c + 2
  | _, _ => x = c + 1
  end.

Definition duo_inv (db0 : Db) (c : Qc) (q1 : Request) (pc1 : Pc)
    (q2 : Request) (pc2 : Pc) (db : Db) : Prop :=
  thread_inv c q1 pc1 (returned pc2) db ∧
  thread_inv c q2 pc2 (returned pc1) db ∧
  (∃ evs, ratings db = ratings db0 ++ evs ∧
          evs ≡ₚ new_events q1 pc1 ++ new_events q2 pc2) ∧
  (∃ bk, books db !! req_book q1 = Some bk ∧
         count_ok c (returned pc1) (returned pc2) (totalRatingsCount bk)).

(** Two requests on one stored book by two raters who have not rated it. *)
Definition two_raters (qA qB : Request) (db : Db) (b : Book) : Prop :=
  req_book qA = req_book qB ∧ req_user qA ≠ req_user qB ∧
  valid_rating (req_rating qA) = true ∧ valid_rating (req_rating qB) = true ∧
  events_of (req_book qA) (req_user qA) (ratings db) = [] ∧
  events_of (req_book qB) (req_user qB) (ratings db) = [] ∧
  books db !! req_book qA = Some b.

(** ** Examples *)

(** A small catalogue used in the examples: one book, not yet rated. *)
Definition dune : Book :=
  mkBook "Dune" (Some "dune.jpg"%string) None (Some "Frank Herbert"%string)
         ["scifi"%string] "dune.pdf" (Some "PDF"%string) None 0 0 100%Z 100%Z.

Definition library : Db := mkDb [] {[ 7%N := dune ]}.

(** The same catalogue after rater 9 gave the book a 4. *)
Definition rated_library : Db :=
  mkDb [new_rating 200%Z 7%N 9%N (Qc_of_Z 4)] {[ 7%N := rated 201%Z (Qc_of_Z 4) dune ]}.

(** Rater 1 gives 4, rater 2 gives 2, rater 1 tries again with 5. *)
Definition scenario : list Request :=
  [ mkRequest 7%N 1%N (Qc_of_Z 4) 200%Z 201%Z;
    mkRequest 7%N 2%N (Qc_of_Z 2) 300%Z 301%Z;
    mkRequest 7%N 1%N (Qc_of_Z 5) 400%Z 401%Z ].

(** Two requests of rater 9 for book 7, and a schedule in which both check
    before either inserts. *)
Definition twice : list Request :=
  [ mkRequest 7%N 9%N (Qc_of_Z 4) 200%Z 201%Z;
    mkRequest 7%N 9%N (Qc_of_Z 5) 300%Z 301%Z ].

Definition both_check_first : list nat := [0; 1; 0; 1; 0; 0; 1; 1]%nat.

(** Raters 1 and 2 rate book 7 with 4 and 2. *)
Definition duo : list Request :=
  [ mkRequest 7%N 1%N (Qc_of_Z 4) 200%Z 201%Z;
    mkRequest 7%N 2%N (Qc_of_Z 2) 300%Z 301%Z ].

Definition one_after_the_other : list nat := [0; 0; 0; 0; 1; 1; 1; 1]%nat.
Definition both_load_first : list nat := [0; 0; 0; 1; 1; 1; 0; 1]%nat.

(** ** Stronger statements, which the code does not meet *)

(** The frame condition with nothing but the two rating paths modified, and
    one rating document added. *)
Definition frame_only_metrics : Prop :=
  ∀ tIns tSave bookId userId s db db' doc b,
    handleBookRating tIns tSave bookId userId s db = (db', inr doc) →
    books db !! bookId = Some b →
    (∃ b', books db' !! bookId = Some b' ∧ only_metrics_differ b b') ∧
    (∃ r, ratings db' = ratings db ++ [r]).

(** Score bound enforcement as strict as stated: the four listed inputs are
    all answered with the 400 response and leave the store untouched. *)
Definition listed_scores_rejected : Prop :=
  ∀ tIns tSave bookId userId newRating db,
    newRating ∈ [js "0"; js "6"; js "1.5"; js "abc"] →
    rateBook tIns tSave bookId userId newRating db = (db, invalid_score).

(** The race as stated: one request succeeds and every other is refused
    with the error of the application-level check. *)
Definition losers_all_already_rated : Prop :=
  ∀ bookId userId qs db sched,
    qs ≠ [] →
    Forall (for_pair bookId userId) qs →
    events_of bookId userId (ratings db) = [] →
    is_Some (books db !! bookId) →
    (∀ i, (i < length qs)%nat → (4 ≤ count_occ Nat.eq_dec sched i)%nat) →
    ∃ w doc,
      result_of (exec sched (start qs db)) w = Some (inr doc) ∧
      ∀ j, (j < length qs)%nat → j ≠ w →
           result_of (exec sched (start qs db)) j = Some (inl AlreadyRated).

(** The translation of a lost race as stated: a request that the unique
    index stopped is answered like one that the check stopped. *)
Definition race_loss_translated : Prop :=
  ∀ qs db sched i,
    result_of (exec sched (start qs db)) i = Some (inl DuplicateKey) →
    response_of (exec sched (start qs db)) i = Some (respond (inl AlreadyRated)).

(** Lost-update resistance as stated: whatever the interleaving, both
    requests succeed and the count grows by two. *)
Definition no_lost_update : Prop :=
  ∀ qA qB db b sched,
    two_raters qA qB db b →
    (∀ i, (i < 2)%nat → (4 ≤ count_occ Nat.eq_dec sched i)%nat) →
    ∃ docA docB b',
      result_of (exec sched (start [qA; qB] db)) 0 = Some (inr docA) ∧
      result_of (exec sched (start [qA; qB] db)) 1 = Some (inr docB) ∧
      books (store (exec sched (start [qA; qB] db))) !! req_book qA = Some b' ∧
      totalRatingsCount b' = totalRatingsCount b + 2.

(** ** Tactics *)

(** Evaluation of an equation between closed rationals. *)
Ltac qc_eval := apply Qc_is_canon; vm_compute; reflexivity.

(** * The rest of the catalogue service

    The functions around the rating path: the rating history of a user
    ([findRatingsByUser], [getUserRatings], [rateUserBooks]), the lookup,
    listing and removal of books ([findById], [findAll], [findByIdAndRemove]
    with their services and controllers), and the maintenance scripts that
    drive them through the API ([fetchAllBooks], [findAndRemoveDuplicates],
    [enrichExistingBooks]). *)

(** ** The rating history of a user *)

(** The book of a populated rating.  [populate('book', 'title author
    averageRating totalRatingsCount')] selects four paths of which the schema
    of the book has two: a populated book carries its [_id] and the two
    rating metrics. *)
Record PopulatedBook := mkPopulatedBook {
  pop_id : ObjectId;
  pop_averageRating : Qc;
  pop_totalRatingsCount : Qc
}.

(** A rating document whose [book] path was populated; the path is [null]
    when no book of that [_id] is stored. *)
Record PopulatedRating := mkPopulatedRating {
  pr_rating : Qc;
  pr_book : option PopulatedBook;
  pr_user : ObjectId;
  pr_createdAt : Time;
  pr_updatedAt : Time
}.

Definition select_metrics (id : ObjectId) (b : Book) : PopulatedBook :=
  mkPopulatedBook id (averageRating b) (totalRatingsCount b).

Definition populate (bs : gmap ObjectId Book) (r : Rating) : PopulatedRating :=
  mkPopulatedRating (rating r) (select_metrics (book r) <$> bs !! book r)
                    (user r) (rating_createdAt r) (rating_updatedAt r).

(** [Rating.find({ user: userId }).populate('book', ...)] *)
Definition findRatingsByUser (userId : ObjectId) : M (list PopulatedRating) :=
  λ db, (db, inr (populate (books db)
                    <$> List.filter (λ r, bool_decide (user r = userId)) (ratings db))).

(** [getUserRatings(userId)] *)
Definition getUserRatings (userId : ObjectId) : M (list PopulatedRating) :=
  findRatingsByUser userId.

(** What [rateUserBooks] sends. *)
Inductive HistoryBody :=
| HistoryData (msg : string) (data : list PopulatedRating)
| HistoryError (msg : string) (error : string).

(** [rateUserBooks(req, res)] with [req.params = { userId }]. *)
Definition rateUserBooks (userId : ObjectId) (db : Db) : Db * (Z * HistoryBody) :=
  match getUserRatings userId db with
  | (db', inr ratings) =>
      (db', (200%Z, HistoryData "Calificaciones del usuario obtenidas exitosamente." ratings))
  | (db', inl error) =>
      (db', (500%Z, HistoryError "Error interno del servidor" (message error)))
  end.

(** The history a user is shown: the data of the 200 response. *)
Definition history (userId : ObjectId) (db : Db) : list PopulatedRating :=
  match (rateUserBooks userId db).2.2 with
  | HistoryData _ data => data
  | HistoryError _ _ => []
  end.

(** An entry of a history with the metrics of book [bookId] read again. *)
Definition refresh (bookId : ObjectId) (b : Book) (e : PopulatedRating) : PopulatedRating :=
  match pr_book e with
  | Some p =>
      if decide (pop_id p = bookId)
      then mkPopulatedRating (pr_rating e) (Some (select_metrics bookId b))
                             (pr_user e) (pr_createdAt e) (pr_updatedAt e)
      else e
  | None => e
  end.

(** The stored books that a history lists. *)
Definition rated_books (h : list PopulatedRating) : list ObjectId :=
  omap (λ e, pop_id <$> pr_book e) h.

(** ** Books: lookup, removal, listing *)

(** [Book.findById(id).lean()]: the plain object, or [null]. *)
Definition findById (id : ObjectId) : M (option Book) :=
  λ db, (db, inr (books db !! id)).

(** [Book.findByIdAndDelete(id)]: the document that was removed, or [null]. *)
Definition findByIdAndRemove (id : ObjectId) : M (option Book) :=
  λ db, (mkDb (ratings db) (delete id (books db)), inr (books db !! id)).

(** The order of [sort({ averageRating: -1, _id: -1 })]: [x] is listed no
    later than [y]. *)
Definition listed_before (x y : ObjectId * Book) : Prop :=
  (averageRating y.2 < averageRating x.2)%Qc ∨
  (averageRating x.2 = averageRating y.2 ∧ (y.1 ≤ x.1)%N).

Global Instance listed_before_dec : RelDecision listed_before.
Proof. intros x y. unfold listed_before. apply _. Defined.

(** The whole collection in that order. *)
Definition sorted_books (db : Db) : list (ObjectId * Book) :=
  merge_sort listed_before (map_to_list (books db)).

(** The one failure of the listing: the store refuses a negative skip. *)
Inductive QueryError := NegativeSkip.

Definition query_message (e : QueryError) : string :=
  match e with
  | NegativeSkip => "Skip value must be non-negative"
  end.

(** [Math.ceil(totalCount / limit)]; [None] when the quotient is not a number
    that JSON can carry (a zero [limit]). *)
Definition ceil_div (totalCount limit : Z) : option Z :=
  if (limit =? 0)%Z then None else Some (- ((- totalCount) / limit))%Z.

Record Page := mkPage {
  page_books : list (ObjectId * Book);
  page_totalCount : Z;
  page_totalPages : option Z
}.

(** [findAll(page, limit)].  [limit(0)] is no limit and a negative limit is
    its absolute value, as the driver sends them. *)
Definition findAll (page limit : Z) (db : Db) : QueryError + Page :=
  let skip := ((page - 1) * limit)%Z in
  if (skip <? 0)%Z then inl NegativeSkip
  else
    let totalCount := Z.of_nat (size (books db)) in
    let skipped := drop (Z.to_nat skip) (sorted_books db) in
    let books := if (limit =? 0)%Z then skipped
                 else take (Z.to_nat (Z.abs limit)) skipped in
    let totalPages := ceil_div totalCount limit in
    inr (mkPage books totalCount totalPages).

(** [services/book.service.js]: the service passes each call on. *)
Module bookService.
Definition findAllBooks (page limit : Z) (db : Db) : QueryError + Page :=
  findAll page limit db.
Definition findBookById (id : ObjectId) : M (option Book) := findById id.
Definition deleteBook (id : ObjectId) : M (option Book) := findByIdAndRemove id.
End bookService.

(** The JSON bodies of the book controller. *)
Inductive BookBody :=
| BookMessage (msg : string)
| BookJson (book : Book)
| BookList (data : list (ObjectId * Book))
           (page limit totalCount : Z) (totalPages : option Z).

(** [parseInt(string)] without a radix: radix 16 after the prefix "0x" or
    "0X", radix 10 otherwise. *)
Definition has_hex_prefix (s : JsString) : bool :=
  let trimmed := trim_start s in
  let unsigned :=
    match trimmed with
    | 45%N :: rest => rest
    | 43%N :: rest => rest
    | _ => trimmed
    end in
  match unsigned with
  | 48%N :: 120%N :: _ => true
  | 48%N :: 88%N :: _ => true
  | _ => false
  end.

Definition parseInt_auto (s : JsString) : option Z :=
  if has_hex_prefix s then parseInt s 16 else parseInt s 10.

(** [parseInt(param) || dflt] for a query parameter that is absent or one
    string: NaN and 0 are falsy. *)
Definition int_param (param : option JsString) (dflt : Z) : Z :=
  match param with
  | None => dflt
  | Some s =>
      match parseInt_auto s with
      | None => dflt
      | Some 0%Z => dflt
      | Some v => v
      end
  end.

(** [controllers/book.controller.js] *)
Module bookController.

(** [findAll(req, res)] with [req.query = { page, limit }]. *)
Definition findAll (qpage qlimit : option JsString) (db : Db) : Z * BookBody :=
  let page := int_param qpage 1 in
  let limit := int_param qlimit 10 in
  match bookService.findAllBooks page limit db with
  | inr p =>
      (200%Z, BookList (page_books p) page limit (page_totalCount p) (page_totalPages p))
  | inl error => (500%Z, BookMessage (query_message error))
  end.

(** [findOne(req, res)] with [req.params = { idBook }]. *)
Definition findOne (idBook : ObjectId) (db : Db) : Db * (Z * BookBody) :=
  match bookService.findBookById idBook db with
  | (db', inr None) => (db', (404%Z, BookMessage "Libro no encontrado"))
  | (db', inr (Some book)) => (db', (200%Z, BookJson book))
  | (db', inl error) => (db', (500%Z, BookMessage (message error)))
  end.

(** [remove(req, res)] with [req.params = { idBook }]. *)
Definition remove (idBook : ObjectId) (db : Db) : Db * (Z * BookBody) :=
  match bookService.deleteBook idBook db with
  | (db', inr None) => (db', (404%Z, BookMessage "Libro no encontrado"))
  | (db', inr (Some _)) => (db', (200%Z, BookMessage "Libro eliminado con éxito"))
  | (db', inl error) => (db', (500%Z, BookMessage (message error)))
  end.

End bookController.
(** * Theorems *)

(** ** Facts about the repositories *)

Lemma Qc_succ_neq (c : Qc) : c + 1 ≠ c.
Proof.
  intros H. assert (E : c + 1 - c = c - c) by (rewrite H; reflexivity).
  replace (c + 1 - c) with (1 : Qc) in E by ring.
  replace (c - c) with (0 : Qc) in E by ring.
  discriminate E.
Qed.

Lemma find_existsb_false {A} (p : A → bool) (l : list A) :
  List.find p l = None ↔ existsb p l = false.
Proof.
  induction l as [|x l IH]; simpl; [tauto|].
  destruct (p x); simpl; [split; discriminate | exact IH].
Qed.

Lemma set_averageRating_same (b : Book) : set_averageRating (averageRating b) b = b.
Proof. destruct b; reflexivity. Qed.

Lemma apply_modified_rated (t : Time) (id : ObjectId) (s : Qc) (b : Book) :
  let d := assign_totalRatingsCount (totalRatingsCount b + 1)
             (assign_averageRating
                ((averageRating b * totalRatingsCount b + s) / (totalRatingsCount b + 1))
                (mkDoc id b b)) in
  is_modified d = true ∧ apply_modified t d b = rated t s b.
Proof.
  simpl. split.
  - unfold is_modified; simpl.
    rewrite (bool_decide_eq_false_2 (_ + 1 = _)) by apply Qc_succ_neq.
    rewrite andb_false_r. reflexivity.
  - unfold apply_modified, rated; simpl.
    destruct (decide (totalRatingsCount b + 1 = totalRatingsCount b)) as [E|_];
      [destruct (Qc_succ_neq _ E)|].
    destruct (decide _) as [E|_]; [|reflexivity].
    rewrite E, set_averageRating_same. reflexivity.
Qed.

(** *** The equations of [handleBookRating], one per way it ends *)

Section Service.
Variables (tIns tSave : Time) (bookId userId : ObjectId) (s : Qc) (db : Db).

Lemma handleBookRating_duplicate r :
  List.find (same_pair bookId userId) (ratings db) = Some r →
  handleBookRating tIns tSave bookId userId s db = (db, inl AlreadyRated).
Proof.
  intros Hfind. unfold handleBookRating, bind, findByBookAndUser.
  rewrite Hfind. reflexivity.
Qed.

Lemma handleBookRating_invalid :
  List.find (same_pair bookId userId) (ratings db) = None →
  valid_rating s = false →
  handleBookRating tIns tSave bookId userId s db = (db, inl ValidationError).
Proof.
  intros Hfind Hvalid. unfold handleBookRating, bind, findByBookAndUser, createRating.
  rewrite Hfind; simpl. rewrite Hvalid. reflexivity.
Qed.

Lemma createRating_new :
  List.find (same_pair bookId userId) (ratings db) = None →
  valid_rating s = true →
  createRating tIns (mkRatingData s bookId userId) db
  = (mkDb (ratings db ++ [new_rating tIns bookId userId s]) (books db),
     inr (new_rating tIns bookId userId s)).
Proof.
  intros Hfind Hvalid. unfold createRating; simpl. rewrite Hvalid; simpl.
  rewrite (proj1 (find_existsb_false _ _) Hfind). reflexivity.
Qed.

Lemma handleBookRating_no_book :
  List.find (same_pair bookId userId) (ratings db) = None →
  valid_rating s = true →
  books db !! bookId = None →
  handleBookRating tIns tSave bookId userId s db
  = (mkDb (ratings db ++ [new_rating tIns bookId userId s]) (books db),
     inl BookNotFound).
Proof.
  intros Hfind Hvalid Hbook. unfold handleBookRating, bind at 1, findByBookAndUser.
  rewrite Hfind. unfold bind at 1. rewrite (createRating_new Hfind Hvalid).
  unfold bind, findBookById; simpl. rewrite Hbook. reflexivity.
Qed.

Lemma handleBookRating_rated b :
  List.find (same_pair bookId userId) (ratings db) = None →
  valid_rating s = true →
  books db !! bookId = Some b →
  handleBookRating tIns tSave bookId userId s db
  = (mkDb (ratings db ++ [new_rating tIns bookId userId s])
          (<[bookId := rated tSave s b]> (books db)),
     inr (mkDoc bookId b (rated tSave s b))).
Proof.
  intros Hfind Hvalid Hbook. unfold handleBookRating, bind at 1, findByBookAndUser.
  rewrite Hfind. unfold bind at 1. rewrite (createRating_new Hfind Hvalid).
  unfold bind, findBookById; simpl. rewrite Hbook; simpl.
  destruct (apply_modified_rated tSave bookId s b) as [Hmod Happ].
  simpl in Hmod, Happ.
  unfold updateBookRatingMetrics. rewrite Hmod; simpl. rewrite Hbook, Happ.
  reflexivity.
Qed.

Lemma handleBookRating_outcome :
  Outcome tIns tSave bookId userId s db (handleBookRating tIns tSave bookId userId s db).
Proof.
  destruct (List.find (same_pair bookId userId) (ratings db)) as [r|] eqn:Hfind.
  { rewrite (handleBookRating_duplicate r Hfind). by eapply OutDuplicate. }
  destruct (valid_rating s) eqn:Hvalid.
  2: { rewrite (handleBookRating_invalid Hfind Hvalid). by apply OutInvalid. }
  destruct (books db !! bookId) as [b|] eqn:Hbook.
  - rewrite (handleBookRating_rated b Hfind Hvalid Hbook). by apply OutRated.
  - rewrite (handleBookRating_no_book Hfind Hvalid Hbook). by apply OutNoBook.
Qed.
End Service.

Lemma events_of_nil_find bookId userId l :
  events_of bookId userId l = [] ↔ List.find (same_pair bookId userId) l = None.
Proof.
  unfold events_of. induction l as [|x l IH]; simpl; [tauto|].
  destruct (same_pair bookId userId x); [split; discriminate | exact IH].
Qed.

Lemma find_same_pair_Some bookId userId l r :
  r ∈ l → book r = bookId → user r = userId →
  ∃ r', List.find (same_pair bookId userId) l = Some r'.
Proof.
  intros Hin Hb Hu.
  destruct (List.find (same_pair bookId userId) l) as [r'|] eqn:E; [eauto|].
  apply list_elem_of_In in Hin.
  pose proof (find_none _ _ E r Hin) as H.
  unfold same_pair in H. rewrite !bool_decide_eq_true_2 in H by done. discriminate.
Qed.

Lemma events_of_app bookId userId l1 l2 :
  events_of bookId userId (l1 ++ l2) = events_of bookId userId l1 ++ events_of bookId userId l2.
Proof. apply List.filter_app. Qed.

(** ** The incremental mean *)



(** *** Doubles

    In binary64 the scenario of [scenario] gives the same metrics, 3 and 2.
    After the eight scores 1, 3, 5, 5, 5, 5, 5, 1 the stored average is one
    unit in the last place above 30 / 8 = 3.75, although 3.75 is a double:
    the product [averageRating * totalRatingsCount] of step 4 is already
    rounded.  The equalities of exact arithmetic hold in doubles only up to
    such a tolerance. *)

Lemma binary64_scenario :
  rate_all_binary64 [4; 2]%Z = (binary64_of_Z 3, binary64_of_Z 2).
Proof. vm_compute. reflexivity. Qed.

Lemma binary64_drift :
  (rate_all_binary64 [1; 3; 5; 5; 5; 5; 5; 1]%Z).1
  = S754_finite false 8444249301319681 (-51) ∧
  SFdiv 53 1024 (binary64_of_Z 30) (binary64_of_Z 8)
  = S754_finite false 8444249301319680 (-51).
Proof. split; vm_compute; reflexivity. Qed.

Lemma rated_library_spec :
  (handleBookRating 200%Z 201%Z 7%N 9%N (Qc_of_Z 4) library).1 = rated_library.
Proof.
  rewrite (handleBookRating_rated 200%Z 201%Z 7%N 9%N (Qc_of_Z 4) library dune)
    by reflexivity.
  reflexivity.
Qed.

(** ** Rejections *)

(** C4.  When a rating document of the pair [(bookId, userId)] exists, the
    call fails with the error "Ya has calificado este libro." and the store is
    the one it started from: no rating document is added and no book
    changes. *)
Theorem duplicate_rejected_unchanged tIns tSave bookId userId s db r :
  r ∈ ratings db → book r = bookId → user r = userId →
  handleBookRating tIns tSave bookId userId s db = (db, inl AlreadyRated).
Proof.
  intros Hin Hb Hu.
  destruct (find_same_pair_Some bookId userId (ratings db) r Hin Hb Hu) as [r' Hfind].
  by eapply handleBookRating_duplicate.
Qed.

Lemma duplicate_rejected_unchanged_witness :
  handleBookRating 300%Z 301%Z 7%N 9%N (Qc_of_Z 5) rated_library
  = (rated_library, inl AlreadyRated).
Proof.
  apply (duplicate_rejected_unchanged 300%Z 301%Z 7%N 9%N (Qc_of_Z 5) rated_library
           (new_rating 200%Z 7%N 9%N (Qc_of_Z 4))).
  - apply list_elem_of_here.
  - reflexivity.
  - reflexivity.
Defined.

(** C5.  A submission of a valid score for a new pair whose item is not
    stored fails with "Libro no encontrado.", and the rating document inserted
    before the lookup stays in the ledger: the ledger is the old one followed
    by the new document, no book changes, and from then on every submission of
    that pair is refused as a duplicate, so the score never reaches an
    aggregate. *)
Theorem dangling_event_on_missing_book tIns tSave bookId userId s db :
  events_of bookId userId (ratings db) = [] →
  books db !! bookId = None →
  valid_rating s = true →
  ∃ db',
    handleBookRating tIns tSave bookId userId s db = (db', inl BookNotFound) ∧
    ratings db' = ratings db ++ [new_rating tIns bookId userId s] ∧
    books db' = books db ∧
    ∀ tIns' tSave' s',
      handleBookRating tIns' tSave' bookId userId s' db' = (db', inl AlreadyRated).
Proof.
  intros Hnew Hbook Hvalid. apply events_of_nil_find in Hnew.
  eexists. split; [by apply handleBookRating_no_book|].
  simpl. split; [reflexivity|]. split; [reflexivity|].
  intros tIns' tSave' s'.
  destruct (find_same_pair_Some bookId userId
              (ratings db ++ [new_rating tIns bookId userId s])
              (new_rating tIns bookId userId s)) as [r Hr]; [|reflexivity..|].
  - apply elem_of_app. right. apply list_elem_of_here.
  - by eapply handleBookRating_duplicate.
Qed.

Lemma dangling_event_on_missing_book_witness :
  ∃ db',
    handleBookRating 10%Z 11%Z 5%N 9%N (Qc_of_Z 4) library = (db', inl BookNotFound) ∧
    ratings db' = [new_rating 10%Z 5%N 9%N (Qc_of_Z 4)] ∧
    books db' = books library ∧
    ∀ tIns' tSave' s',
      handleBookRating tIns' tSave' 5%N 9%N s' db' = (db', inl AlreadyRated).
Proof.
  apply (dangling_event_on_missing_book 10%Z 11%Z 5%N 9%N (Qc_of_Z 4) library);
    reflexivity.
Defined.

(** ** The frame of a successful submission *)

Lemma rated_catalogue_fields t s b : catalogue_fields_equal b (rated t s b).
Proof. repeat split. Qed.

(** The schema of the book has [timestamps: true]: the save of the new
    metrics also stamps [updatedAt], so the two rating paths are not the only
    ones a successful call modifies. *)
Lemma frame_only_metrics_fails : ¬ frame_only_metrics.
Proof.
  intros H.
  destruct (H 200%Z 201%Z 7%N 9%N (Qc_of_Z 4) library _ _ dune
              (handleBookRating_rated 200%Z 201%Z 7%N 9%N (Qc_of_Z 4) library dune
                 eq_refl eq_refl eq_refl) eq_refl)
    as [(b' & Hb' & Hframe) _].
  simpl in Hb'. rewrite lookup_insert_eq in Hb'. injection Hb' as <-.
  apply (f_equal updatedAt) in Hframe. simpl in Hframe. discriminate Hframe.
Qed.

(** C9 (as the code has it).  A successful call modifies, on the rated book,
    [averageRating], [totalRatingsCount] and the [updatedAt] stamp, which
    becomes the time of the save; [titulo], [portada], [sinopsis], [autor],
    [categorias], [link], [fileType], [creator] and [createdAt] keep their
    values, no other book changes, and the ledger is the old one followed by
    exactly one new rating document. *)
Theorem frame_of_successful_rating tIns tSave bookId userId s db db' doc :
  handleBookRating tIns tSave bookId userId s db = (db', inr doc) →
  ∃ b b',
    books db !! bookId = Some b ∧
    books db' !! bookId = Some b' ∧
    b' = set_updatedAt tSave
           (set_totalRatingsCount (totalRatingsCount b')
              (set_averageRating (averageRating b') b)) ∧
    catalogue_fields_equal b b' ∧
    createdAt b' = createdAt b ∧
    (∀ other, other ≠ bookId → books db' !! other = books db !! other) ∧
    ratings db' = ratings db ++ [new_rating tIns bookId userId s].
Proof.
  intros Hrun.
  pose proof (handleBookRating_outcome tIns tSave bookId userId s db) as Hout.
  rewrite Hrun in Hout. inversion Hout as [| | |b Hfind Hvalid Hb]; subst.
  exists b, (rated tSave s b). simpl.
  rewrite lookup_insert_eq.
  repeat split; try done.
  intros other Hne. by rewrite lookup_insert_ne.
Qed.

Lemma frame_of_successful_rating_witness :
  ∃ b',
    books (handleBookRating 200%Z 201%Z 7%N 9%N (Qc_of_Z 4) library).1 !! 7%N = Some b' ∧
    catalogue_fields_equal dune b' ∧
    createdAt b' = 100%Z ∧ updatedAt b' = 201%Z ∧
    ratings (handleBookRating 200%Z 201%Z 7%N 9%N (Qc_of_Z 4) library).1
    = [new_rating 200%Z 7%N 9%N (Qc_of_Z 4)].
Proof.
  pose proof (handleBookRating_rated 200%Z 201%Z 7%N 9%N (Qc_of_Z 4) library dune
                eq_refl eq_refl eq_refl) as Hrun.
  destruct (frame_of_successful_rating _ _ _ _ _ _ _ _ Hrun)
    as (b & b' & Hb & Hb' & Heq & Hcat & Hcre & _ & Hled).
  assert (Some dune = Some b) as [= <-] by exact Hb.
  exists b'. rewrite Hrun in *. repeat split; try apply Hcat; try done.
  rewrite Heq. reflexivity.
Defined.

(** ** The running mean over a sequence of submissions *)















Lemma scenario_results :
  (submit_all scenario library).2.*2 !! 2%nat = Some (inl AlreadyRated).
Proof. vm_compute. reflexivity. Qed.


(** ** The controller *)

Lemma accepted_score_range newRating v :
  accepted_score newRating = Some v ↔
  parseInt newRating 10 = Some v ∧ (1 ≤ v ≤ 5)%Z.
Proof.
  unfold accepted_score. destruct (parseInt newRating 10) as [w|].
  2: { split; [discriminate | intros [? _]; discriminate]. }
  destruct (orb _ _) eqn:E.
  - apply orb_true_iff in E. split; [discriminate|].
    intros [Hw ?]. injection Hw as ->. lia.
  - apply orb_false_iff in E. split.
    + intros Hw. injection Hw as ->. split; [done|lia].
    + intros [Hw _]. exact Hw.
Qed.

Lemma rateBook_rejected tIns tSave bookId userId newRating db :
  accepted_score newRating = None →
  rateBook tIns tSave bookId userId newRating db = (db, invalid_score).
Proof.
  unfold accepted_score, rateBook. destruct (parseInt newRating 10) as [v|]; [|done].
  by destruct (orb _ _).
Qed.

Lemma rateBook_accepted tIns tSave bookId userId newRating db v :
  accepted_score newRating = Some v →
  rateBook tIns tSave bookId userId newRating db
  = ((handleBookRating tIns tSave bookId userId (Qc_of_Z v) db).1,
     respond (handleBookRating tIns tSave bookId userId (Qc_of_Z v) db).2).
Proof.
  unfold accepted_score, rateBook. destruct (parseInt newRating 10) as [w|]; [|done].
  destruct (orb _ _); [done|]. intros [= ->].
  by destruct (handleBookRating _ _ _ _ _ _).
Qed.

Lemma respond_status_not_400 r : status (respond r) ≠ 400%Z.
Proof. destruct r as [[]|doc]; simpl; discriminate. Qed.

Lemma respond_200 r : status (respond r) = 200%Z → ∃ doc, r = inr doc.
Proof. destruct r as [[]|doc]; simpl; [discriminate..|eauto]. Qed.

Lemma valid_rating_of_Z v : (1 ≤ v ≤ 5)%Z → valid_rating (Qc_of_Z v) = true.
Proof.
  intros [H1 H5]. unfold valid_rating.
  rewrite !bool_decide_eq_true_2; [done| |]; apply (proj1 (Z2Qc_inj_le _ _)); assumption.
Qed.

Lemma accepted_score_None newRating :
  accepted_score newRating = None ↔
  parseInt newRating 10 = None ∨
  ∃ v, parseInt newRating 10 = Some v ∧ (v < 1 ∨ 5 < v)%Z.
Proof.
  unfold accepted_score. destruct (parseInt newRating 10) as [w|].
  2: { split; [by left | done]. }
  destruct (orb _ _) eqn:E.
  - apply orb_true_iff in E. split; [|done]. intros _. right. exists w.
    split; [done|lia].
  - apply orb_false_iff in E. split; [discriminate|].
    intros [H|(v & Hv & Hr)]; [discriminate|]. injection Hv as ->. lia.
Qed.

(** The listed inputs are not all rejected: "1.5" is read by [parseInt] as 1
    and the rating is recorded. *)
Lemma listed_scores_rejected_fails : ¬ listed_scores_rejected.
Proof.
  intros H.
  assert (Hin : js "1.5" ∈ [js "0"; js "6"; js "1.5"; js "abc"])
    by (do 2 apply list_elem_of_further; apply list_elem_of_here).
  pose proof (H 200%Z 201%Z 7%N 9%N (js "1.5") library Hin) as Hrun.
  apply (f_equal (λ p, status p.2)) in Hrun.
  vm_compute in Hrun. discriminate Hrun.
Qed.

(** C6 (as the code has it).  A submission whose score text [parseInt] reads
    as NaN, or as an integer below 1 or above 5, is answered with the 400
    response before any store call, and the store is unchanged; this covers
    "0", "6" and text that does not start with an integer, such as "abc".
    (The text "1.5" is not among them.) *)
Theorem invalid_score_rejected tIns tSave bookId userId newRating db :
  (parseInt newRating 10 = None ∨
   (∃ v, parseInt newRating 10 = Some v ∧ (v < 1 ∨ 5 < v)%Z) ∨
   newRating ∈ [js "0"; js "6"; js "abc"]) →
  rateBook tIns tSave bookId userId newRating db = (db, invalid_score).
Proof.
  intros H. apply rateBook_rejected.
  destruct H as [H|[H|H]].
  - apply accepted_score_None. by left.
  - apply accepted_score_None. by right.
  - repeat (apply elem_of_cons in H as [->|H]; [reflexivity|]).
    by apply elem_of_nil in H.
Qed.

Lemma invalid_score_rejected_witness :
  rateBook 200%Z 201%Z 7%N 9%N (js "6") library = (library, invalid_score) ∧
  rateBook 200%Z 201%Z 7%N 9%N (js " -3") library = (library, invalid_score).
Proof.
  split.
  - apply invalid_score_rejected. right; right.
    apply list_elem_of_further, list_elem_of_here.
  - apply invalid_score_rejected. right; left. exists (-3)%Z.
    split; [reflexivity|lia].
Defined.

(** C10.  The controller forwards a submission to the service exactly when
    [parseInt(newRating, 10)] is an integer from 1 to 5 (otherwise it answers
    400), it forwards that integer, and the rating document a forwarded
    submission inserts carries that integer: "1.5" is accepted as 1 and
    "4abc" as 4. *)
Theorem score_parsing tIns tSave bookId userId newRating db :
  (status (rateBook tIns tSave bookId userId newRating db).2 ≠ 400%Z ↔
   ∃ v, parseInt newRating 10 = Some v ∧ (1 ≤ v ≤ 5)%Z) ∧
  (∀ v, parseInt newRating 10 = Some v → (1 ≤ v ≤ 5)%Z →
     rateBook tIns tSave bookId userId newRating db
     = ((handleBookRating tIns tSave bookId userId (Qc_of_Z v) db).1,
        respond (handleBookRating tIns tSave bookId userId (Qc_of_Z v) db).2)) ∧
  (ratings (rateBook tIns tSave bookId userId newRating db).1 = ratings db ∨
   ∃ v, parseInt newRating 10 = Some v ∧
        ratings (rateBook tIns tSave bookId userId newRating db).1
        = ratings db ++ [new_rating tIns bookId userId (Qc_of_Z v)]) ∧
  (status (rateBook tIns tSave bookId userId newRating db).2 = 200%Z →
   ∃ v, parseInt newRating 10 = Some v ∧
        ratings (rateBook tIns tSave bookId userId newRating db).1
        = ratings db ++ [new_rating tIns bookId userId (Qc_of_Z v)]) ∧
  parseInt (js "1.5") 10 = Some 1%Z ∧ parseInt (js "4abc") 10 = Some 4%Z.
Proof.
  destruct (accepted_score newRating) as [v|] eqn:Hacc.
  - pose proof (rateBook_accepted tIns tSave bookId userId newRating db v Hacc) as Hrun.
    apply accepted_score_range in Hacc as [Hparse Hrange].
    rewrite Hrun; simpl.
    pose proof (handleBookRating_outcome tIns tSave bookId userId (Qc_of_Z v) db) as Hout.
    split; [split; [eauto | intros _; apply respond_status_not_400]|].
    split; [intros w Hw _; congruence|].
    destruct (handleBookRating tIns tSave bookId userId (Qc_of_Z v) db) as [db' r].
    simpl. split; [|split; [|done]].
    + inversion Hout; subst; simpl; eauto.
    + intros H200. apply respond_200 in H200 as [doc ->].
      inversion Hout; subst; simpl; eauto.
  - rewrite (rateBook_rejected tIns tSave bookId userId newRating db Hacc); simpl.
    split; [split; [done|]|].
    { intros (v & Hv & Hr).
      assert (accepted_score newRating = Some v) by (by apply accepted_score_range).
      congruence. }
    split.
    { intros v Hv Hr.
      assert (accepted_score newRating = Some v) by (by apply accepted_score_range).
      congruence. }
    split; [by left|]. split; [discriminate|done].
Qed.

Lemma score_parsing_witness :
  status (rateBook 200%Z 201%Z 7%N 9%N (js "1.5") library).2 = 200%Z ∧
  ratings (rateBook 200%Z 201%Z 7%N 9%N (js "1.5") library).1
  = [new_rating 200%Z 7%N 9%N (Qc_of_Z 1)] ∧
  ratings (rateBook 200%Z 201%Z 7%N 9%N (js "4abc") library).1
  = [new_rating 200%Z 7%N 9%N (Qc_of_Z 4)].
Proof.
  split; [vm_compute; reflexivity|]. split.
  - destruct (score_parsing 200%Z 201%Z 7%N 9%N (js "1.5") library)
      as (_ & _ & _ & H & _).
    destruct H as (v & Hv & Hr); [vm_compute; reflexivity|].
    rewrite Hr. assert (v = 1%Z) as -> by (vm_compute in Hv; congruence).
    reflexivity.
  - destruct (score_parsing 200%Z 201%Z 7%N 9%N (js "4abc") library)
      as (_ & _ & _ & H & _).
    destruct H as (v & Hv & Hr); [vm_compute; reflexivity|].
    rewrite Hr. assert (v = 4%Z) as -> by (vm_compute in Hv; congruence).
    reflexivity.
Defined.

(** ** One transition of a request *)

Section Step.
Variables (q : Request) (db : Db).

Lemma step_check_new :
  events_of (req_book q) (req_user q) (ratings db) = [] →
  step q AtCheck db = (db, AtInsert).
Proof.
  intros H. apply events_of_nil_find in H. simpl.
  unfold findByBookAndUser. by rewrite H.
Qed.

Lemma step_check_duplicate :
  events_of (req_book q) (req_user q) (ratings db) ≠ [] →
  step q AtCheck db = (db, Returned (inl AlreadyRated)).
Proof.
  intros H. simpl. unfold findByBookAndUser.
  destruct (List.find _ _) eqn:E; [done|].
  by apply events_of_nil_find in E.
Qed.

Lemma step_insert_new :
  events_of (req_book q) (req_user q) (ratings db) = [] →
  valid_rating (req_rating q) = true →
  step q AtInsert db = (mkDb (ratings db ++ [event_of q]) (books db), AtLoad).
Proof.
  intros H Hv. apply events_of_nil_find in H. simpl.
  by rewrite (createRating_new _ _ _ _ _ H Hv).
Qed.

Lemma step_insert_duplicate :
  events_of (req_book q) (req_user q) (ratings db) ≠ [] →
  valid_rating (req_rating q) = true →
  step q AtInsert db = (db, Returned (inl DuplicateKey)).
Proof.
  intros H Hv. simpl. unfold createRating; simpl. rewrite Hv; simpl.
  destruct (existsb _ _) eqn:E; [done|].
  by apply find_existsb_false, events_of_nil_find in E.
Qed.

Lemma step_load b :
  books db !! req_book q = Some b →
  step q AtLoad db = (db, AtSave (assigned q b)).
Proof. intros H. simpl. unfold findBookById. by rewrite H. Qed.

Lemma step_load_missing :
  books db !! req_book q = None →
  step q AtLoad db = (db, Returned (inl BookNotFound)).
Proof. intros H. simpl. unfold findBookById. by rewrite H. Qed.

Lemma step_save b stored :
  books db !! req_book q = Some stored →
  step q (AtSave (assigned q b)) db
  = (mkDb (ratings db)
          (<[req_book q := apply_modified (req_tSave q) (assigned q b) stored]> (books db)),
     Returned (inr (mkDoc (req_book q) b (rated (req_tSave q) (req_rating q) b)))).
Proof.
  intros H. simpl. unfold updateBookRatingMetrics.
  destruct (apply_modified_rated (req_tSave q) (req_book q) (req_rating q) b) as [Hmod _].
  simpl in Hmod. unfold assigned. rewrite Hmod; simpl. by rewrite H.
Qed.

Lemma step_returned r : step q (Returned r) db = (db, Returned r).
Proof. reflexivity. Qed.
End Step.

Lemma apply_modified_count t q b stored :
  totalRatingsCount (apply_modified t (assigned q b) stored) = totalRatingsCount b + 1.
Proof.
  unfold apply_modified; simpl.
  destruct (decide (totalRatingsCount b + 1 = totalRatingsCount b)) as [E|_];
    [destruct (Qc_succ_neq _ E)|].
  reflexivity.
Qed.

(** ** Schedules *)

Lemma exec_cons i sched σ : exec (i :: sched) σ = exec sched (sys_step σ i).
Proof. reflexivity. Qed.

Lemma exec_app s1 s2 σ : exec (s1 ++ s2) σ = exec s2 (exec s1 σ).
Proof. apply fold_left_app. Qed.

Lemma sys_step_at ts db i q pc :
  ts !! i = Some (q, pc) →
  sys_step (mkSystem ts db) i
  = mkSystem (<[i := (q, (step q pc db).2)]> ts) (step q pc db).1.
Proof.
  intros H. unfold sys_step; simpl. rewrite H. by destruct (step q pc db).
Qed.

Lemma sys_step_idle σ i : threads σ !! i = None → sys_step σ i = σ.
Proof. intros H. unfold sys_step. by rewrite H. Qed.

(** The next store call of the thread at the head of the schedule; the
    premises of [lem] are left as goals. *)
Tactic Notation "turn" uconstr(lem) :=
  rewrite exec_cons; erewrite sys_step_at by reflexivity;
  rewrite lem; cbn [fst snd ratings books]; simpl insert.

(** A request served alone makes its four store calls in a row: that is
    [handleBookRating]. *)
Lemma served_alone q db :
  exec [0; 0; 0; 0]%nat (start [q] db)
  = mkSystem [(q, Returned (submit q db).2)] (submit q db).1.
Proof.
  unfold submit.
  pose proof (handleBookRating_outcome (req_tIns q) (req_tSave q) (req_book q)
                (req_user q) (req_rating q) db) as Hout.
  destruct (handleBookRating _ _ _ _ _ db) as [db' r].
  unfold start; simpl fmap.
  inversion Hout as [r0 Hfind|Hfind Hvalid|Hfind Hvalid Hbook|b Hfind Hvalid Hbook]; subst.
  - assert (events_of (req_book q) (req_user q) (ratings db') ≠ [])
      by (rewrite events_of_nil_find; congruence).
    turn step_check_duplicate; [|done]. reflexivity.
  - apply events_of_nil_find in Hfind. turn step_check_new; [|done].
    rewrite exec_cons; erewrite sys_step_at by reflexivity.
    simpl. unfold createRating; simpl. rewrite Hvalid. reflexivity.
  - apply events_of_nil_find in Hfind. turn step_check_new; [|done].
    turn step_insert_new; [|done..]. turn step_load_missing; [|done].
    reflexivity.
  - apply events_of_nil_find in Hfind. turn step_check_new; [|done].
    turn step_insert_new; [|done..]. turn (step_load q _ b); [|done].
    turn (step_save q _ b b); [|done].
    destruct (apply_modified_rated (req_tSave q) (req_book q) (req_rating q) b) as [_ Happ].
    simpl in Happ. unfold assigned. rewrite Happ. reflexivity.
Qed.

(** ** Progress: four turns complete a request *)

Lemma remaining_step q pc db :
  (remaining (step q pc db).2 ≤ remaining pc - 1)%nat.
Proof.
  destruct pc as [| | |doc|r]; simpl.
  - unfold findByBookAndUser. destruct (List.find _ _); simpl; lia.
  - destruct (createRating _ _ db) as [db' [e|r]]; simpl; lia.
  - unfold findBookById. destruct (books db !! req_book q); simpl; lia.
  - destruct (updateBookRatingMetrics _ _ db) as [db' [e|r]]; simpl; lia.
  - lia.
Qed.

Lemma sys_step_thread σ i j q pc :
  threads σ !! i = Some (q, pc) →
  ∃ pc', threads (sys_step σ j) !! i = Some (q, pc') ∧
         (remaining pc' ≤ remaining pc - (if decide (i = j) then 1 else 0))%nat.
Proof.
  intros Hi. destruct σ as [ts db]. simpl in Hi.
  destruct (ts !! j) as [[qj pcj]|] eqn:Hj.
  - rewrite (sys_step_at _ _ _ _ _ Hj). simpl.
    destruct (decide (i = j)) as [->|Hne].
    + rewrite Hi in Hj. injection Hj as <- <-.
      rewrite list_lookup_insert_eq by (by eapply lookup_lt_Some).
      eexists. split; [done|]. apply remaining_step.
    + rewrite list_lookup_insert_ne by done. exists pc. split; [done|lia].
  - rewrite sys_step_idle by done. exists pc. split; [done|].
    destruct (decide (i = j)) as [->|]; [simpl in Hj; congruence | lia].
Qed.

Lemma exec_thread sched : ∀ σ i q pc,
  threads σ !! i = Some (q, pc) →
  ∃ pc', threads (exec sched σ) !! i = Some (q, pc') ∧
         (remaining pc' ≤ remaining pc - count_occ Nat.eq_dec sched i)%nat.
Proof.
  induction sched as [|j sched IH]; intros σ i q pc Hi.
  { exists pc. split; [done|simpl; lia]. }
  destruct (sys_step_thread σ i j q pc Hi) as (pc1 & H1 & Hr1).
  destruct (IH _ i q pc1 H1) as (pc2 & H2 & Hr2).
  exists pc2. rewrite exec_cons. split; [done|].
  simpl. destruct (Nat.eq_dec j i) as [->|Hne].
  - rewrite decide_True in Hr1 by done. lia.
  - lia.
Qed.

(** Every request that gets four turns has returned. *)
Lemma exec_returns sched qs db i q :
  qs !! i = Some q →
  (4 ≤ count_occ Nat.eq_dec sched i)%nat →
  ∃ r, threads (exec sched (start qs db)) !! i = Some (q, Returned r).
Proof.
  intros Hq Hturns.
  destruct (exec_thread sched (start qs db) i q AtCheck) as (pc & Hpc & Hrem).
  { unfold start; simpl. by rewrite list_lookup_fmap, Hq. }
  destruct pc as [| | |doc|r]; simpl in Hrem; try lia. eauto.
Qed.

(** ** The unique index *)

Lemma events_of_snoc_same bookId userId l t s :
  events_of bookId userId (l ++ [new_rating t bookId userId s])
  = events_of bookId userId l ++ [new_rating t bookId userId s].
Proof.
  rewrite events_of_app. unfold events_of at 2; simpl.
  unfold same_pair; simpl. by rewrite !bool_decide_eq_true_2.
Qed.

Lemma events_of_snoc_other bookId userId l t b u s :
  (b, u) ≠ (bookId, userId) →
  events_of bookId userId (l ++ [new_rating t b u s]) = events_of bookId userId l.
Proof.
  intros Hne. rewrite events_of_app. unfold events_of at 2; simpl.
  unfold same_pair; simpl.
  destruct (decide (b = bookId)) as [->|Hb].
  - rewrite (bool_decide_eq_false_2 (u = userId)) by congruence.
    by rewrite andb_false_r, app_nil_r.
  - rewrite (bool_decide_eq_false_2 (b = bookId)) by done.
    by rewrite app_nil_r.
Qed.

(** A store call leaves the ledger alone or appends the event of its
    request, and the latter only while the pair has no event. *)
Lemma step_ratings q pc db :
  ratings (step q pc db).1 = ratings db ∨
  (events_of (req_book q) (req_user q) (ratings db) = [] ∧
   ratings (step q pc db).1 = ratings db ++ [event_of q]).
Proof.
  destruct pc as [| | |doc|r]; simpl.
  - unfold findByBookAndUser. destruct (List.find _ _); by left.
  - unfold createRating; simpl. destruct (valid_rating _); simpl; [|by left].
    destruct (existsb _ _) eqn:E; simpl; [by left|]. right. split; [|done].
    by apply events_of_nil_find, find_existsb_false.
  - unfold findBookById. destruct (books db !! req_book q); by left.
  - unfold updateBookRatingMetrics. destruct (negb _); [by left|].
    destruct (books db !! doc_id doc); by left.
  - by left.
Qed.

Lemma step_unique q pc db :
  unique_pairs (ratings db) → unique_pairs (ratings (step q pc db).1).
Proof.
  intros Hu. destruct (step_ratings q pc db) as [->|[Hnew ->]]; [done|].
  intros b u. unfold event_of.
  destruct (decide ((req_book q, req_user q) = (b, u))) as [[= <- <-]|Hne].
  - rewrite events_of_snoc_same, Hnew. simpl. lia.
  - rewrite events_of_snoc_other by done. apply Hu.
Qed.

Lemma exec_unique sched : ∀ σ,
  unique_pairs (ratings (store σ)) → unique_pairs (ratings (store (exec sched σ))).
Proof.
  induction sched as [|i sched IH]; intros σ Hu; [done|].
  rewrite exec_cons. apply IH. destruct σ as [ts db].
  destruct (ts !! i) as [[q pc]|] eqn:Hi.
  - rewrite (sys_step_at _ _ _ _ _ Hi). simpl. by apply step_unique.
  - by rewrite sys_step_idle.
Qed.

(** ** A race for one pair *)

Lemma race_inv_start bookId userId qs db :
  Forall (for_pair bookId userId) qs →
  events_of bookId userId (ratings db) = [] →
  is_Some (books db !! bookId) →
  race_inv bookId userId (start qs db).
Proof.
  intros Hqs Hnew Hbook. unfold race_inv, start; simpl.
  split; [|split; [done|left; split; [done|]]].
  - intros i q pc Hi. rewrite list_lookup_fmap in Hi.
    destruct (qs !! i) as [q'|] eqn:Hq; [|done]. injection Hi as <- <-.
    eapply Forall_lookup_1; eauto.
  - intros i q pc Hi. rewrite list_lookup_fmap in Hi.
    destruct (qs !! i) as [q'|]; [|done]. injection Hi as <- <-. by left.
Qed.

Lemma race_inv_step bookId userId σ i :
  race_inv bookId userId σ → race_inv bookId userId (sys_step σ i).
Proof.
  intros (Hpair & Hbook & Hrace). destruct σ as [ts db]. simpl in *.
  destruct (ts !! i) as [[q pc]|] eqn:Hi; [|by rewrite sys_step_idle].
  assert (Hlt : (i < length ts)%nat) by (by eapply lookup_lt_Some).
  rewrite (sys_step_at _ _ _ _ _ Hi).
  destruct (Hpair i q pc Hi) as (Hb & Hu & Hvalid).
  assert (Hpair' : ∀ pc' j q0 pc0,
             <[i := (q, pc')]> ts !! j = Some (q0, pc0) → for_pair bookId userId q0).
  { intros pc' j q0 pc0 Hj. destruct (decide (j = i)) as [->|Hne].
    - rewrite list_lookup_insert_eq in Hj by done. injection Hj as <- <-.
      by eapply Hpair.
    - rewrite list_lookup_insert_ne in Hj by done. by eapply Hpair. }
  destruct Hrace as [[Hnew Hpcs]|(w & qw & pcw & Hw & Hwin & Hev & Hlose)].
  - (* nobody has inserted *)
    destruct (Hpcs i q pc Hi) as [->| ->].
    + rewrite step_check_new by (by rewrite Hb, Hu). unfold race_inv; cbn [threads store ratings books fst snd].
      split; [by apply Hpair'|]. split; [done|]. left. split; [done|].
      intros j q0 pc0 Hj. destruct (decide (j = i)) as [->|Hne].
      * rewrite list_lookup_insert_eq in Hj by done. injection Hj as <- <-. by right.
      * rewrite list_lookup_insert_ne in Hj by done. by eapply Hpcs.
    + rewrite step_insert_new by (by rewrite ?Hb, ?Hu). unfold race_inv; cbn [threads store ratings books fst snd].
      split; [by apply Hpair'|]. split; [done|]. right.
      exists i, q, AtLoad. rewrite list_lookup_insert_eq by done.
      split; [done|]. split; [by left|]. split.
      * unfold event_of. rewrite Hb, Hu, events_of_snoc_same, Hnew. done.
      * intros j q0 pc0 Hne Hj. rewrite list_lookup_insert_ne in Hj by done.
        destruct (Hpcs j q0 pc0 Hj) as [->| ->]; [by left | by right; left].
  - (* [w] has inserted *)
    assert (Hdup : events_of (req_book q) (req_user q) (ratings db) ≠ [])
      by (by rewrite Hb, Hu, Hev).
    destruct Hbook as [stored Hstored].
    destruct (decide (i = w)) as [->|Hne].
    + rewrite Hi in Hw. injection Hw as <- <-.
      destruct Hwin as [->|[[b ->]|[doc ->]]].
      * rewrite (step_load q db stored) by (by rewrite Hb). unfold race_inv; cbn [threads store ratings books fst snd].
        split; [by apply Hpair'|]. split; [done|]. right.
        exists w, q, (AtSave (assigned q stored)).
        rewrite list_lookup_insert_eq by done.
        split; [done|]. split; [right; left; eauto|]. split; [done|].
        intros j q0 pc0 Hne Hj. rewrite list_lookup_insert_ne in Hj by done.
        by eapply Hlose.
      * rewrite (step_save q db b stored) by (by rewrite Hb). unfold race_inv; cbn [threads store ratings books fst snd].
        split; [by apply Hpair'|].
        split; [rewrite Hb, lookup_insert_eq; eauto|]. right.
        eexists w, q, _. rewrite list_lookup_insert_eq by done.
        split; [done|]. split; [right; right; eauto|]. split; [done|].
        intros j q0 pc0 Hne Hj. rewrite list_lookup_insert_ne in Hj by done.
        by eapply Hlose.
      * unfold race_inv; cbn [step threads store ratings books fst snd].
        split; [by apply Hpair'|]. split; [eauto|]. right.
        exists w, q, (Returned (inr doc)). rewrite list_lookup_insert_eq by done.
        split; [done|]. split; [right; right; eauto|]. split; [done|].
        intros j q0 pc0 Hne Hj. rewrite list_lookup_insert_ne in Hj by done.
        by eapply Hlose.
    + assert (Hstep : ∃ pc', step q pc db = (db, pc') ∧ loser_pc pc').
      { destruct (Hlose i q pc Hne Hi) as [->|[->|[->| ->]]].
        - rewrite step_check_duplicate by done. eexists. split; [done|].
          right; right; by left.
        - rewrite step_insert_duplicate by done. eexists. split; [done|].
          by (do 3 right).
        - eexists. split; [done|]. right; right; by left.
        - eexists. split; [done|]. by (do 3 right). }
      destruct Hstep as (pc' & -> & Hpc'). unfold race_inv; cbn [threads store ratings books fst snd].
      split; [by apply Hpair'|]. split; [eauto|]. right.
      exists w, qw, pcw. rewrite list_lookup_insert_ne by done.
      split; [done|]. split; [done|]. split; [done|].
      intros j q0 pc0 Hjw Hj. destruct (decide (j = i)) as [->|Hji].
      * rewrite list_lookup_insert_eq in Hj by done. by injection Hj as <- <-.
      * rewrite list_lookup_insert_ne in Hj by done. by eapply Hlose.
Qed.

Lemma race_inv_exec bookId userId sched : ∀ σ,
  race_inv bookId userId σ → race_inv bookId userId (exec sched σ).
Proof.
  induction sched as [|i sched IH]; intros σ H; [done|].
  rewrite exec_cons. by apply IH, race_inv_step.
Qed.

Lemma submit_unique q db :
  unique_pairs (ratings db) → unique_pairs (ratings (submit q db).1).
Proof.
  intros Hu. pose proof (exec_unique [0; 0; 0; 0]%nat (start [q] db) Hu) as H.
  rewrite served_alone in H. exact H.
Qed.

Lemma submit_all_unique qs : ∀ db,
  unique_pairs (ratings db) → unique_pairs (ratings (submit_all qs db).1).
Proof.
  induction qs as [|q qs IH]; intros db Hu; [done|].
  simpl. pose proof (submit_unique q db Hu) as H1.
  destruct (submit q db) as [db1 r]. specialize (IH db1 H1).
  by destruct (submit_all qs db1).
Qed.

Lemma sys_step_requests σ i : (threads (sys_step σ i)).*1 = (threads σ).*1.
Proof.
  destruct σ as [ts db]. destruct (ts !! i) as [[q pc]|] eqn:Hi.
  - rewrite (sys_step_at _ _ _ _ _ Hi); simpl.
    rewrite list_fmap_insert; simpl. apply list_insert_id.
    by rewrite list_lookup_fmap, Hi.
  - by rewrite sys_step_idle.
Qed.

Lemma exec_requests sched qs db : (threads (exec sched (start qs db))).*1 = qs.
Proof.
  assert (H : ∀ σ, (threads (exec sched σ)).*1 = (threads σ).*1).
  { induction sched as [|i sched IH]; intros σ; [done|].
    by rewrite exec_cons, IH, sys_step_requests. }
  rewrite H. unfold start; simpl. rewrite <- list_fmap_compose.
  apply list_fmap_id.
Qed.

Lemma result_of_thread σ i q r :
  threads σ !! i = Some (q, Returned r) → result_of σ i = Some r.
Proof. intros H. unfold result_of. by rewrite H. Qed.

(** With both requests of [twice] past the check before either inserts, the
    second is stopped by the unique index, not by the check. *)
Lemma losers_all_already_rated_fails : ¬ losers_all_already_rated.
Proof.
  intros H.
  destruct (H 7%N 9%N twice library both_check_first) as (w & doc & Hw & Hlosers).
  - discriminate.
  - repeat constructor.
  - reflexivity.
  - by eexists.
  - intros i Hi. destruct i as [|[|i]]; simpl in Hi; [simpl; lia..|lia].
  - assert (H1 : result_of (exec both_check_first (start twice library)) 1
                 = Some (inl DuplicateKey)) by (vm_compute; reflexivity).
    destruct (decide (w = 1%nat)) as [->|Hne]; [congruence|].
    rewrite (Hlosers 1%nat) in H1; [discriminate H1|simpl; lia|done].
Qed.

(** C3 (as the code has it).  The unique index keeps at most one rating
    document per pair through every sequence of calls and every interleaving
    of their store calls.  When N requests of one new pair, for a stored book
    and with admissible scores, run concurrently and each gets its four
    turns, exactly one of them inserts its document and succeeds; each other
    request fails, with "Ya has calificado este libro." or with the duplicate
    key error of the index. *)
Theorem one_rating_per_pair :
  (∀ qs db, unique_pairs (ratings db) →
            unique_pairs (ratings (submit_all qs db).1)) ∧
  (∀ qs db sched, unique_pairs (ratings db) →
                  unique_pairs (ratings (store (exec sched (start qs db))))) ∧
  (∀ bookId userId qs db sched,
     qs ≠ [] →
     Forall (for_pair bookId userId) qs →
     events_of bookId userId (ratings db) = [] →
     is_Some (books db !! bookId) →
     (∀ i, (i < length qs)%nat → (4 ≤ count_occ Nat.eq_dec sched i)%nat) →
     ∃ w qw doc,
       qs !! w = Some qw ∧
       result_of (exec sched (start qs db)) w = Some (inr doc) ∧
       events_of bookId userId (ratings (store (exec sched (start qs db))))
       = [event_of qw] ∧
       ∀ j, (j < length qs)%nat → j ≠ w →
            result_of (exec sched (start qs db)) j = Some (inl AlreadyRated) ∨
            result_of (exec sched (start qs db)) j = Some (inl DuplicateKey)).
Proof.
  split; [exact submit_all_unique|]. split; [intros; by apply exec_unique|].
  intros bookId userId qs db sched Hne Hqs Hnew Hbook Hturns.
  pose proof (race_inv_exec bookId userId sched _
                (race_inv_start bookId userId qs db Hqs Hnew Hbook))
    as (_ & _ & Hrace).
  assert (Hret : ∀ i q, qs !! i = Some q →
            ∃ r, threads (exec sched (start qs db)) !! i = Some (q, Returned r)).
  { intros i q Hq. eapply exec_returns; [done|].
    apply Hturns. by eapply lookup_lt_Some. }
  destruct Hrace as [[_ Hpcs]|(w & qw & pcw & Hw & Hwin & Hev & Hlose)].
  - (* somebody has returned, so somebody has inserted *)
    destruct qs as [|q0 qs]; [done|].
    destruct (Hret 0%nat q0 eq_refl) as [r Hr].
    destruct (Hpcs _ _ _ Hr); discriminate.
  - assert (Hqw : qs !! w = Some qw).
    { rewrite <- (exec_requests sched qs db), list_lookup_fmap, Hw. done. }
    destruct (Hret w qw Hqw) as [r Hr]. rewrite Hw in Hr. injection Hr as ->.
    destruct Hwin as [Hpc|[[b Hpc]|[doc [= ->]]]]; [discriminate..|].
    exists w, qw, doc. split; [done|].
    split; [by apply (result_of_thread _ _ qw)|]. split; [done|].
    intros j Hj Hjw.
    destruct (lookup_lt_is_Some_2 qs j Hj) as [qj Hqj].
    destruct (Hret j qj Hqj) as [r Hr].
    rewrite (result_of_thread _ _ _ _ Hr).
    destruct (Hlose j qj _ Hjw Hr) as [?|[?|[[= ->]|[= ->]]]];
      [discriminate..|by left|by right].
Qed.

Lemma one_rating_per_pair_witness :
  unique_pairs (ratings (store (exec both_check_first (start twice library)))) ∧
  ∃ w qw doc,
    twice !! w = Some qw ∧
    result_of (exec both_check_first (start twice library)) w = Some (inr doc) ∧
    events_of 7%N 9%N (ratings (store (exec both_check_first (start twice library))))
    = [event_of qw] ∧
    ∀ j, (j < 2)%nat → j ≠ w →
         result_of (exec both_check_first (start twice library)) j
         = Some (inl AlreadyRated) ∨
         result_of (exec both_check_first (start twice library)) j
         = Some (inl DuplicateKey).
Proof.
  destruct one_rating_per_pair as (_ & Hunique & Hrace). split.
  - apply Hunique. intros b u. simpl. lia.
  - apply (Hrace 7%N 9%N twice library both_check_first).
    + discriminate.
    + repeat constructor.
    + reflexivity.
    + by eexists.
    + intros i Hi. destruct i as [|[|i]]; simpl in Hi; [simpl; lia..|lia].
Defined.

(** ** The answer to a lost race *)

(** In the run of [twice] under [both_check_first] the second request is
    answered 500, not with the 409 of the check. *)
Lemma race_loss_translated_fails : ¬ race_loss_translated.
Proof.
  intros H.
  specialize (H twice library both_check_first 1%nat).
  assert (Hres : result_of (exec both_check_first (start twice library)) 1
                 = Some (inl DuplicateKey)) by (vm_compute; reflexivity).
  specialize (H Hres). unfold response_of in H. rewrite Hres in H.
  simpl in H. discriminate H.
Qed.

Lemma served_alone_no_duplicate_key q db : (submit q db).2 ≠ inl DuplicateKey.
Proof.
  unfold submit.
  pose proof (handleBookRating_outcome (req_tIns q) (req_tSave q) (req_book q)
                (req_user q) (req_rating q) db) as Hout.
  inversion Hout; simpl; discriminate.
Qed.

(** C7 (as the code has it).  Once a rating document of the pair exists, a
    request still at its check fails with "Ya has calificado este libro." and
    is answered 409; a request that had passed the check fails at its insert
    with the duplicate key error of the index, which nothing translates: it
    is answered 500 "Error interno del servidor" with the text of that error.
    Either way the store is unchanged.  The second case needs another request
    in between: a call served alone never ends with the duplicate key
    error. *)
Theorem race_loss_surfaces_untranslated q db :
  events_of (req_book q) (req_user q) (ratings db) ≠ [] →
  valid_rating (req_rating q) = true →
  step q AtCheck db = (db, Returned (inl AlreadyRated)) ∧
  step q AtInsert db = (db, Returned (inl DuplicateKey)) ∧
  respond (inl AlreadyRated)
  = mkResponse 409 (JsonMessage "Ya has calificado este libro.") ∧
  respond (inl DuplicateKey)
  = mkResponse 500 (JsonError "Error interno del servidor" (message DuplicateKey)) ∧
  (∀ q0 db0, (submit q0 db0).2 ≠ inl DuplicateKey).
Proof.
  intros Hdup Hvalid.
  split; [by apply step_check_duplicate|].
  split; [by apply step_insert_duplicate|].
  split; [reflexivity|]. split; [reflexivity|].
  apply served_alone_no_duplicate_key.
Qed.

Lemma race_loss_surfaces_untranslated_witness :
  step (mkRequest 7%N 9%N (Qc_of_Z 5) 300%Z 301%Z) AtInsert rated_library
  = (rated_library, Returned (inl DuplicateKey)) ∧
  status (respond (inl DuplicateKey)) = 500%Z ∧
  status (respond (inl AlreadyRated)) = 409%Z.
Proof.
  destruct (race_loss_surfaces_untranslated
              (mkRequest 7%N 9%N (Qc_of_Z 5) 300%Z 301%Z) rated_library)
    as (_ & Hstep & H409 & H500 & _).
  - vm_compute. discriminate.
  - reflexivity.
  - split; [exact Hstep|]. rewrite H409, H500. split; reflexivity.
Defined.

(** ** Two raters of one book *)

Lemma count_ok_sym c r1 r2 x : count_ok c r1 r2 x → count_ok c r2 r1 x.
Proof. by destruct r1, r2. Qed.

Lemma duo_inv_sym db0 c q1 pc1 q2 pc2 db :
  req_book q1 = req_book q2 →
  duo_inv db0 c q1 pc1 q2 pc2 db → duo_inv db0 c q2 pc2 q1 pc1 db.
Proof.
  intros Hb (H1 & H2 & (evs & Hl & Hp) & (bk & Hbk & Hc)).
  split; [done|]. split; [done|]. split.
  - exists evs. split; [done|]. by rewrite (comm app).
  - exists bk. rewrite <- Hb. split; [done|]. by apply count_ok_sym.
Qed.

Lemma thread_inv_other_insert c q pc r db q' :
  (req_book q', req_user q') ≠ (req_book q, req_user q) →
  thread_inv c q pc r db →
  thread_inv c q pc r (mkDb (ratings db ++ [event_of q']) (books db)).
Proof.
  intros Hne H. destruct pc; simpl in *; try done.
  - unfold event_of. by rewrite events_of_snoc_other.
  - unfold event_of. by rewrite events_of_snoc_other.
Qed.

Lemma thread_inv_books c q pc r db bs :
  thread_inv c q pc r db → thread_inv c q pc r (mkDb (ratings db) bs).
Proof. by destruct pc. Qed.

Lemma thread_inv_other_returns c q pc db :
  thread_inv c q pc false db → thread_inv c q pc true db.
Proof.
  destruct pc; simpl; try done.
  intros (b & -> & [H|[_ H]]); [|done]. exists b. split; [done|]. by left.
Qed.

(** The first request of the two makes a store call. *)
Lemma duo_inv_step db0 c q1 pc1 q2 pc2 db :
  req_book q1 = req_book q2 →
  req_user q1 ≠ req_user q2 →
  valid_rating (req_rating q1) = true →
  duo_inv db0 c q1 pc1 q2 pc2 db →
  duo_inv db0 c q1 (step q1 pc1 db).2 q2 pc2 (step q1 pc1 db).1.
Proof.
  intros Hb Hu Hvalid (H1 & H2 & (evs & Hl & Hp) & (bk & Hbk & Hc)).
  assert (Hpair : (req_book q1, req_user q1) ≠ (req_book q2, req_user q2))
    by congruence.
  destruct pc1 as [| | |doc|r]; simpl in H1.
  - rewrite step_check_new by done. cbn [fst snd].
    split; [done|]. split; [done|]. split; [by exists evs|]. by exists bk.
  - rewrite step_insert_new by done. cbn [fst snd].
    split; [done|]. split; [by apply thread_inv_other_insert|]. split.
    + exists (evs ++ [event_of q1]). cbn [ratings]. rewrite Hl, (assoc app).
      split; [done|]. rewrite Hp. simpl. by rewrite <- Permutation_cons_append.
    + by exists bk.
  - rewrite (step_load q1 db bk) by done. cbn [fst snd].
    split; [|split; [done|split; [by exists evs|by exists bk]]].
    simpl. exists bk. split; [done|]. simpl in Hc.
    destruct (returned pc2); [right|left]; done.
  - destruct H1 as (b & -> & Hcount).
    rewrite (step_save q1 db b bk) by done. cbn [fst snd].
    split; [simpl; eauto|]. split.
    { apply thread_inv_books. simpl in H2. by apply thread_inv_other_returns. }
    split; [by exists evs|].
    eexists. cbn [books]. rewrite lookup_insert_eq. split; [done|].
    rewrite apply_modified_count. simpl in Hc |- *.
    destruct (returned pc2).
    + destruct Hcount as [->|[-> _]]; [by left|right].
      rewrite <- (assoc Qcplus). f_equal.
    + destruct Hcount as [->|[_ ?]]; done.
  - simpl. split; [done|]. split; [done|]. split; [by exists evs|]. by exists bk.
Qed.

Lemma duo_inv_exec db0 c qA qB sched : ∀ pcA pcB db,
  req_book qA = req_book qB →
  req_user qA ≠ req_user qB →
  valid_rating (req_rating qA) = true →
  valid_rating (req_rating qB) = true →
  duo_inv db0 c qA pcA qB pcB db →
  ∃ pcA' pcB' db',
    exec sched (mkSystem [(qA, pcA); (qB, pcB)] db)
    = mkSystem [(qA, pcA'); (qB, pcB')] db' ∧
    duo_inv db0 c qA pcA' qB pcB' db'.
Proof.
  induction sched as [|i sched IH]; intros pcA pcB db Hb Hu HvA HvB Hinv.
  { by exists pcA, pcB, db. }
  rewrite exec_cons. destruct i as [|[|i]].
  - erewrite sys_step_at by reflexivity. simpl insert.
    apply IH; try done. by apply duo_inv_step.
  - erewrite sys_step_at by reflexivity. simpl insert.
    apply IH; try done.
    apply duo_inv_sym; [done|]. apply duo_inv_step; try done.
    by apply duo_inv_sym.
  - rewrite sys_step_idle by reflexivity. by apply IH.
Qed.

Lemma duo_inv_start qA qB db b :
  two_raters qA qB db b →
  duo_inv db (totalRatingsCount b) qA AtCheck qB AtCheck db.
Proof.
  intros (Hb & Hu & HvA & HvB & HnA & HnB & Hbook).
  split; [done|]. split; [done|]. split.
  - exists []. by rewrite app_nil_r.
  - by exists b.
Qed.

(** With both requests past their load before either saves, the second save
    overwrites the first: the count grows by one. *)
Lemma no_lost_update_fails : ¬ no_lost_update.
Proof.
  intros H.
  destruct (H (mkRequest 7%N 1%N (Qc_of_Z 4) 200%Z 201%Z)
              (mkRequest 7%N 2%N (Qc_of_Z 2) 300%Z 301%Z)
              library dune both_load_first)
    as (docA & docB & b' & _ & _ & Hb' & Hcount).
  - repeat split; try reflexivity. simpl. discriminate.
  - intros i Hi. destruct i as [|[|i]]; [simpl; lia..|lia].
  - assert (Hrun : ∃ b'',
              books (store (exec both_load_first (start duo library))) !! 7%N = Some b'' ∧
              this (totalRatingsCount b'') = 1%Q).
    { eexists. split; [vm_compute; reflexivity|reflexivity]. }
    destruct Hrun as (b'' & Hb'' & Hone).
    assert (Some b' = Some b'') as [= <-] by exact (eq_trans (eq_sym Hb') Hb'').
    rewrite Hcount in Hone.
    vm_compute in Hone. discriminate Hone.
Qed.

Section TwoRaters.
Variables (qA qB : Request) (db : Db) (b : Book).
Hypothesis Hduo : two_raters qA qB db b.

Lemma served_one_after_the_other :
  ∃ b', books (store (exec one_after_the_other (start [qA; qB] db))) !! req_book qA
        = Some b' ∧
        totalRatingsCount b' = totalRatingsCount b + 2.
Proof.
  destruct Hduo as (Hb & Hu & HvA & HvB & HnA & HnB & Hbook).
  assert (HnB' : events_of (req_book qB) (req_user qB) (ratings db ++ [event_of qA]) = []).
  { unfold event_of. rewrite events_of_snoc_other; [done|congruence]. }
  unfold one_after_the_other, start; simpl fmap.
  turn step_check_new; [|done].
  turn step_insert_new; [|done..].
  turn (step_load qA _ b); [|done].
  turn (step_save qA _ b b); [|done].
  turn step_check_new; [|done].
  turn step_insert_new; [|done..].
  turn (step_load qB _ (apply_modified (req_tSave qA) (assigned qA b) b));
    [|by rewrite <- Hb, lookup_insert_eq].
  turn (step_save qB _ _ (apply_modified (req_tSave qA) (assigned qA b) b));
    [|by rewrite <- Hb, lookup_insert_eq].
  simpl. rewrite <- Hb, lookup_insert_eq. eexists. split; [done|].
  rewrite !apply_modified_count. rewrite <- (assoc Qcplus). f_equal.
Qed.

Lemma served_both_load_first :
  ∃ b', books (store (exec both_load_first (start [qA; qB] db))) !! req_book qA
        = Some b' ∧
        totalRatingsCount b' = totalRatingsCount b + 1.
Proof.
  destruct Hduo as (Hb & Hu & HvA & HvB & HnA & HnB & Hbook).
  assert (HnB' : events_of (req_book qB) (req_user qB) (ratings db ++ [event_of qA]) = []).
  { unfold event_of. rewrite events_of_snoc_other; [done|congruence]. }
  unfold both_load_first, start; simpl fmap.
  turn step_check_new; [|done].
  turn step_insert_new; [|done..].
  turn (step_load qA _ b); [|done].
  turn step_check_new; [|done].
  turn step_insert_new; [|done..].
  turn (step_load qB _ b); [|by rewrite <- Hb].
  turn (step_save qA _ b b); [|done].
  turn (step_save qB _ b (apply_modified (req_tSave qA) (assigned qA b) b));
    [|by rewrite <- Hb, lookup_insert_eq].
  simpl. rewrite <- Hb, lookup_insert_eq. eexists. split; [done|].
  by rewrite apply_modified_count.
Qed.
End TwoRaters.

(** C8 (as the code has it).  Two concurrent submissions on one stored book
    by two raters who have not rated it both succeed once each has had its
    four turns, and the ledger gains exactly their two rating documents; but
    nothing serialises the two load-and-save sequences, so
    [totalRatingsCount] ends one or two above its start: two when the requests
    are served one after the other, one when both load before either saves. *)
Theorem two_raters_count qA qB db b :
  two_raters qA qB db b →
  (∀ sched,
     (∀ i, (i < 2)%nat → (4 ≤ count_occ Nat.eq_dec sched i)%nat) →
     ∃ docA docB evs b',
       result_of (exec sched (start [qA; qB] db)) 0 = Some (inr docA) ∧
       result_of (exec sched (start [qA; qB] db)) 1 = Some (inr docB) ∧
       ratings (store (exec sched (start [qA; qB] db))) = ratings db ++ evs ∧
       evs ≡ₚ [event_of qA; event_of qB] ∧
       books (store (exec sched (start [qA; qB] db))) !! req_book qA = Some b' ∧
       (totalRatingsCount b' = totalRatingsCount b + 1 ∨
        totalRatingsCount b' = totalRatingsCount b + 2)) ∧
  (∃ b', books (store (exec one_after_the_other (start [qA; qB] db))) !! req_book qA
         = Some b' ∧
         totalRatingsCount b' = totalRatingsCount b + 2) ∧
  (∃ b', books (store (exec both_load_first (start [qA; qB] db))) !! req_book qA
         = Some b' ∧
         totalRatingsCount b' = totalRatingsCount b + 1).
Proof.
  intros Hduo.
  split; [|split; [by eapply served_one_after_the_other
                  |by eapply served_both_load_first]].
  intros sched Hturns.
  pose proof (duo_inv_start qA qB db b Hduo) as Hinv.
  destruct Hduo as (Hb & Hu & HvA & HvB & HnA & HnB & Hbook).
  destruct (duo_inv_exec db (totalRatingsCount b) qA qB sched AtCheck AtCheck db
              Hb Hu HvA HvB Hinv)
    as (pcA & pcB & db' & Hexec & HA & HB & (evs & Hl & Hp) & (bk & Hbk & Hc)).
  change (mkSystem [(qA, AtCheck); (qB, AtCheck)] db) with (start [qA; qB] db) in Hexec.
  destruct (exec_returns sched [qA; qB] db 0 qA eq_refl) as [rA HrA];
    [apply Hturns; lia|].
  destruct (exec_returns sched [qA; qB] db 1 qB eq_refl) as [rB HrB];
    [apply Hturns; lia|].
  rewrite Hexec in HrA, HrB |- *. simpl in HrA, HrB.
  injection HrA as ->. injection HrB as ->.
  simpl in HA, HB, Hp, Hc. destruct HA as [docA ->], HB as [docB ->].
  exists docA, docB, evs, bk. repeat split; done.
Qed.

Lemma two_raters_count_witness :
  (∃ docA docB,
     result_of (exec both_load_first (start duo library)) 0 = Some (inr docA) ∧
     result_of (exec both_load_first (start duo library)) 1 = Some (inr docB)) ∧
  (∃ b', books (store (exec one_after_the_other (start duo library))) !! 7%N = Some b' ∧
         totalRatingsCount b' = Qc_of_Z 2) ∧
  (∃ b', books (store (exec both_load_first (start duo library))) !! 7%N = Some b' ∧
         totalRatingsCount b' = Qc_of_Z 1).
Proof.
  destruct (two_raters_count (mkRequest 7%N 1%N (Qc_of_Z 4) 200%Z 201%Z)
              (mkRequest 7%N 2%N (Qc_of_Z 2) 300%Z 301%Z) library dune)
    as (Hall & (b2 & Hb2 & Hc2) & (b1 & Hb1 & Hc1)).
  { repeat split; try reflexivity. simpl. discriminate. }
  split; [|split].
  - destruct (Hall both_load_first) as (docA & docB & _ & _ & HA & HB & _).
    + intros i Hi. destruct i as [|[|i]]; [simpl; lia..|lia].
    + by exists docA, docB.
  - exists b2. split; [exact Hb2|]. rewrite Hc2. qc_eval.
  - exists b1. split; [exact Hb1|]. rewrite Hc1. qc_eval.
Defined.

(** * The rest of the catalogue service: theorems *)

(** ** The rating history of a user *)

Lemma history_eq userId db :
  history userId db
  = populate (books db)
      <$> List.filter (λ r, bool_decide (user r = userId)) (ratings db).
Proof. reflexivity. Qed.

Lemma populate_insert bs bookId old b r :
  bs !! bookId = Some old →
  populate (<[bookId := b]> bs) r = refresh bookId b (populate bs r).
Proof.
  intros Hold. unfold populate, refresh; simpl.
  destruct (decide (book r = bookId)) as [->|Hne].
  - rewrite lookup_insert_eq, Hold; simpl. by rewrite decide_True.
  - rewrite lookup_insert_ne by done.
    destruct (bs !! book r); simpl; [by rewrite decide_False|done].
Qed.

(** X1.  After a successful rating of book [bookId] by [userId], every
    user's history is the one before with the metrics of that book read
    again, and the history of [userId] has one more entry, the last: the new
    rating with the book's new average and count. *)
Theorem history_after_rating tIns tSave bookId userId s db db' doc :
  handleBookRating tIns tSave bookId userId s db = (db', inr doc) →
  ∀ v, history v db'
       = (refresh bookId (doc_fields doc) <$> history v db)
         ++ (if decide (v = userId)
             then [mkPopulatedRating s (Some (select_metrics bookId (doc_fields doc)))
                                     userId tIns tIns]
             else []).
Proof.
  intros Hrun v.
  pose proof (handleBookRating_outcome tIns tSave bookId userId s db) as Hout.
  rewrite Hrun in Hout. inversion Hout as [| | |b Hfind Hvalid Hb]; subst.
  rewrite !history_eq. cbn [ratings books doc_fields].
  rewrite List.filter_app, fmap_app. f_equal.
  - rewrite <- list_fmap_compose. apply list_fmap_ext. intros i r _. simpl.
    by eapply populate_insert.
  - simpl. destruct (decide (v = userId)) as [->|Hne].
    + rewrite bool_decide_eq_true_2 by done. simpl. unfold populate; simpl.
      by rewrite lookup_insert_eq.
    + by rewrite bool_decide_eq_false_2.
Qed.

Lemma history_after_rating_witness :
  history 9%N (handleBookRating 200%Z 201%Z 7%N 9%N (Qc_of_Z 4) library).1
  = [mkPopulatedRating (Qc_of_Z 4)
       (Some (select_metrics 7%N (rated 201%Z (Qc_of_Z 4) dune))) 9%N 200%Z 200%Z].
Proof.
  pose proof (handleBookRating_rated 200%Z 201%Z 7%N 9%N (Qc_of_Z 4) library dune
                eq_refl eq_refl eq_refl) as Hrun.
  pose proof (history_after_rating _ _ _ _ _ _ _ _ Hrun 9%N) as H.
  rewrite Hrun. cbn [fst]. rewrite H. reflexivity.
Defined.

(** X2.  After a rating that failed with "Libro no encontrado.", the history
    of the rater ends with the orphaned rating, whose book is [null]; every
    other history is as before. *)
Theorem history_after_missing_book tIns tSave bookId userId s db db' :
  handleBookRating tIns tSave bookId userId s db = (db', inl BookNotFound) →
  ∀ v, history v db'
       = history v db
         ++ (if decide (v = userId)
             then [mkPopulatedRating s None userId tIns tIns]
             else []).
Proof.
  intros Hrun v.
  pose proof (handleBookRating_outcome tIns tSave bookId userId s db) as Hout.
  rewrite Hrun in Hout. inversion Hout as [| |Hfind Hvalid Hb|]; subst.
  rewrite !history_eq. cbn [ratings books].
  rewrite List.filter_app, fmap_app. f_equal.
  simpl. destruct (decide (v = userId)) as [->|Hne].
  - rewrite bool_decide_eq_true_2 by done. simpl. unfold populate; simpl.
    by rewrite Hb.
  - by rewrite bool_decide_eq_false_2.
Qed.

Lemma history_after_missing_book_witness :
  history 9%N (handleBookRating 10%Z 11%Z 5%N 9%N (Qc_of_Z 4) library).1
  = [mkPopulatedRating (Qc_of_Z 4) None 9%N 10%Z 10%Z].
Proof.
  pose proof (handleBookRating_no_book 10%Z 11%Z 5%N 9%N (Qc_of_Z 4) library
                eq_refl eq_refl eq_refl) as Hrun.
  pose proof (history_after_missing_book _ _ _ _ _ _ _ Hrun 9%N) as H.
  rewrite Hrun. cbn [fst]. rewrite H. reflexivity.
Defined.

Lemma unique_pairs_cons r l : unique_pairs (r :: l) → unique_pairs l.
Proof.
  intros Hu b u. specialize (Hu b u). unfold events_of in *. simpl in Hu.
  destruct (same_pair b u r); simpl in Hu; lia.
Qed.

Lemma unique_pairs_books_of_user userId l :
  unique_pairs l →
  NoDup (book <$> List.filter (λ r, bool_decide (user r = userId)) l).
Proof.
  induction l as [|r l IH]; intros Hu; [constructor|].
  specialize (IH (unique_pairs_cons _ _ Hu)). simpl.
  destruct (decide (user r = userId)) as [Heq|Hne].
  - rewrite bool_decide_eq_true_2 by done. simpl. constructor; [|done].
    intros Hin. apply list_elem_of_fmap in Hin as (r' & Hb & Hin).
    apply list_elem_of_In, filter_In in Hin as [Hin Hu'].
    apply bool_decide_eq_true_1 in Hu'.
    specialize (Hu (book r) userId). unfold events_of in Hu. simpl in Hu.
    unfold same_pair at 1 in Hu.
    rewrite !bool_decide_eq_true_2 in Hu by done. simpl in Hu.
    assert (Hr' : In r' (List.filter (same_pair (book r) userId) l)).
    { apply filter_In. split; [done|]. unfold same_pair.
      by rewrite !bool_decide_eq_true_2. }
    destruct (List.filter (same_pair (book r) userId) l); [done|simpl in Hu; lia].
  - by rewrite bool_decide_eq_false_2.
Qed.

Lemma rated_books_sublist bs rs :
  rated_books (populate bs <$> rs) `sublist_of` book <$> rs.
Proof.
  induction rs as [|r rs IH]; [done|]. unfold rated_books in *. simpl.
  destruct (bs !! book r); simpl.
  - by apply sublist_skip.
  - by apply sublist_cons.
Qed.

Lemma history_no_repeat userId db :
  unique_pairs (ratings db) → NoDup (rated_books (history userId db)).
Proof.
  intros Hu. rewrite history_eq.
  eapply sublist_NoDup; [by apply unique_pairs_books_of_user|].
  apply rated_books_sublist.
Qed.

(** X3.  From a ledger with at most one rating per pair, whatever
    submissions are served, one after the other or interleaved, no history
    lists a stored book twice. *)
Theorem history_one_entry_per_book userId db :
  unique_pairs (ratings db) →
  (∀ qs, NoDup (rated_books (history userId (submit_all qs db).1))) ∧
  (∀ qs sched, NoDup (rated_books (history userId (store (exec sched (start qs db)))))).
Proof.
  intros Hu. split.
  - intros qs. by apply history_no_repeat, submit_all_unique.
  - intros qs sched. by apply history_no_repeat, exec_unique.
Qed.

Lemma history_one_entry_per_book_witness :
  NoDup (rated_books (history 1%N (submit_all scenario library).1)) ∧
  rated_books (history 1%N (submit_all scenario library).1) = [7%N].
Proof.
  split; [|reflexivity].
  apply (history_one_entry_per_book 1%N library).
  intros b u. simpl. lia.
Defined.
